(** * financialrag: retrieval core of the financial Q&A assistant

    A shallow embedding of [utils/document_processor.py], [utils/embeddings.py],
    [utils/retriever.py] and [utils/generator.py], and the properties of the
    chunker, the cosine similarity, the retriever and the answer composer.

    Conventions of the embedding:
    - a Python [str] is a list of characters ([list ascii]); the text is read
      as ASCII, so [lower], [strip] and [split] act on ASCII letters and ASCII
      white space only;
    - a Python [int] is a [Z]; list and string indices follow Python's slice
      rules, negative indices included;
    - a Python [float] and a numpy float64 are Rocq's primitive binary64
      floats; a numpy vector is a list of them. Where a property depends on
      how numpy computes ([np.dot], [np.linalg.norm], the dtype), the
      function is also given with numpy as a parameter
      ([NumpyEmbeddings]);
    - an exception is a value of [exn]; code that can raise returns an
      [outcome], code that also prints returns an [io]. *)

From Stdlib Require Import Ascii String DecimalString.
From Stdlib Require Import List ZArith Lia Bool.
From Stdlib Require Import Floats.
From Stdlib Require Import Sorting.Sorted Sorting.Permutation.
Import ListNotations.

Local Open Scope Z_scope.

(* ================================================================== *)
(** * Python built-ins used by the sources *)
(* ================================================================== *)

Module Py.

Definition str := list ascii.

(** A string literal of the source. *)
Definition lit (s : string) : str := list_ascii_of_string s.

Definition nl : str := ["010"%char].

Definition ascii_eqb (a b : ascii) : bool := Ascii.eqb a b.

Fixpoint str_eqb (a b : str) : bool :=
  match a, b with
  | [], [] => true
  | x :: a', y :: b' => ascii_eqb x y && str_eqb a' b'
  | _, _ => false
  end.

(** [len(s)] *)
Definition len {A} (l : list A) : Z := Z.of_nat (length l).

(** How a slice bound is read: a negative bound counts from the end, and
    every bound is clamped to [0 .. len]. *)
Definition norm_index (n i : Z) : Z :=
  if i <? 0 then Z.max (i + n) 0 else Z.min i n.

(** [l[a:b]] *)
Definition slice {A} (l : list A) (a b : Z) : list A :=
  let a' := norm_index (len l) a in
  let b' := norm_index (len l) b in
  firstn (Z.to_nat (b' - a')) (skipn (Z.to_nat a') l).

(** [l[:b]] *)
Definition slice_to {A} (l : list A) (b : Z) : list A := slice l 0 b.

(** [l[a:]] *)
Definition slice_from {A} (l : list A) (a : Z) : list A := slice l a (len l).

(** [s.startswith(sub)] *)
Fixpoint startswith (s sub : str) : bool :=
  match sub, s with
  | [], _ => true
  | x :: sub', y :: s' => ascii_eqb x y && startswith s' sub'
  | _ :: _, [] => false
  end.

(** [s.endswith(sub)] *)
Definition endswith (s sub : str) : bool := startswith (rev s) (rev sub).

(** [sub in s] *)
Fixpoint contains (sub s : str) : bool :=
  startswith s sub ||
  match s with
  | [] => false
  | _ :: s' => contains sub s'
  end.

(** The highest index [i] with [lo <= i < lo + n] at which [sub] occurs in
    [s], or [-1]. *)
Fixpoint rfind_scan (sub s : str) (lo n : nat) : Z :=
  match n with
  | O => -1
  | S n' =>
      if startswith (skipn (lo + n') s) sub then Z.of_nat (lo + n')
      else rfind_scan sub s lo n'
  end.

(** [s.rfind(sub, start, end)]: the highest index of an occurrence of [sub]
    that lies within [s[start:end]], or [-1]. The end bound is read as a
    slice bound; the start bound is not clamped to the length, so a start
    past the end finds nothing. *)
Definition rfind (s sub : str) (start stop : Z) : Z :=
  let a := if start <? 0 then Z.max (start + len s) 0 else start in
  let b := norm_index (len s) stop in
  if b - a <? len sub then -1
  else rfind_scan sub s (Z.to_nat a) (Z.to_nat (b - len sub - a + 1)).

(** [s.rfind(sub)] *)
Definition rfind_all (s sub : str) : Z := rfind s sub 0 (len s).

(** [c.isspace()] on ASCII: tab, line feed, vertical tab, form feed,
    carriage return, the four separators 28..31 and the space. *)
Definition isspace (c : ascii) : bool :=
  let n := nat_of_ascii c in
  ((9 <=? n) && (n <=? 13) || (28 <=? n) && (n <=? 32))%nat.

Fixpoint lstrip (s : str) : str :=
  match s with
  | c :: s' => if isspace c then lstrip s' else s
  | [] => []
  end.

(** [s.strip()] *)
Definition strip (s : str) : str := rev (lstrip (rev (lstrip s))).

Definition lower_char (c : ascii) : ascii :=
  let n := nat_of_ascii c in
  if ((65 <=? n) && (n <=? 90))%nat then ascii_of_nat (n + 32) else c.

(** [s.lower()] *)
Definition lower (s : str) : str := map lower_char s.

(** [s.split()]: the maximal runs of characters that are not white space.
    [cur] is the run being read, reversed. *)
Fixpoint split_ws_aux (s : str) (cur : str) : list str :=
  match s with
  | [] => match cur with [] => [] | _ => [rev cur] end
  | c :: s' =>
      if isspace c then
        match cur with
        | [] => split_ws_aux s' []
        | _ => rev cur :: split_ws_aux s' []
        end
      else split_ws_aux s' (c :: cur)
  end.

Definition split_ws (s : str) : list str := split_ws_aux s [].

(** [s.split(sep)] for a non-empty [sep]: the text is cut at every
    occurrence of [sep], read from the left and without overlaps. [skip]
    counts the characters of a separator still to be passed over, [cur] is
    the piece being read, reversed. *)
Fixpoint split_aux (sep s : str) (skip : nat) (cur : str) : list str :=
  match s with
  | [] => [rev cur]
  | c :: s' =>
      match skip with
      | S k => split_aux sep s' k cur
      | O =>
          if startswith s sep
          then rev cur :: split_aux sep s' (length sep - 1) []
          else split_aux sep s' 0 (c :: cur)
      end
  end.

Definition split (s sep : str) : list str := split_aux sep s 0 [].

(** [x in l] for a list of strings *)
Definition mem (x : str) (l : list str) : bool := existsb (str_eqb x) l.

(** [str(n)] and [f"{n}"] for an integer *)
Definition str_of_int (n : Z) : str :=
  list_ascii_of_string (NilZero.string_of_int (Z.to_int n)).

(** [range(start, stop, step)] for [step > 0]; [fuel] bounds the number of
    elements. *)
Fixpoint range_up (fuel : nat) (i stop step : Z) : list Z :=
  match fuel with
  | O => []
  | S f => if i <? stop then i :: range_up f (i + step) stop step else []
  end.

(** [range(start, stop, step)] for [step < 0]. *)
Fixpoint range_down (fuel : nat) (i stop step : Z) : list Z :=
  match fuel with
  | O => []
  | S f => if stop <? i then i :: range_down f (i + step) stop step else []
  end.

(** ** Exceptions and printing *)

Inductive exn : Type :=
| ValueError (msg : str)
| IndexError (msg : str)
| ImportError (msg : str)
| OtherError (msg : str).

(** [str(e)] *)
Definition exn_msg (e : exn) : str :=
  match e with
  | ValueError m | IndexError m | ImportError m | OtherError m => m
  end.

Inductive outcome (A : Type) : Type :=
| Return (a : A)
| Raise (e : exn).
Arguments Return {A} a.
Arguments Raise {A} e.

Definition bind {A B} (m : outcome A) (k : A -> outcome B) : outcome B :=
  match m with
  | Return a => k a
  | Raise e => Raise e
  end.

(** [[f(x) for x in l]] where [f] can raise: the first exception wins. *)
Fixpoint traverse {A B} (f : A -> outcome B) (l : list A) : outcome (list B) :=
  match l with
  | [] => Return []
  | x :: l' =>
      bind (f x) (fun y => bind (traverse f l') (fun ys => Return (y :: ys)))
  end.

(** [range(start, stop, step)]: raises on a zero step. *)
Definition range (start stop step : Z) : outcome (list Z) :=
  if step =? 0 then Raise (ValueError (lit "range() arg 3 must not be zero"))
  else if 0 <? step then Return (range_up (Z.to_nat (stop - start)) start stop step)
  else Return (range_down (Z.to_nat (start - stop)) start stop step).

(** A computation that prints: the lines written to standard output, in
    order, and the outcome. *)
Definition io (A : Type) : Type := (list str * outcome A)%type.

Definition io_ret {A} (a : A) : io A := ([], Return a).
Definition io_lift {A} (m : outcome A) : io A := ([], m).
Definition print (line : str) : io unit := ([line], Return tt).

Definition io_bind {A B} (m : io A) (k : A -> io B) : io B :=
  match m with
  | (out, Return a) => let (out', r) := k a in (out ++ out', r)
  | (out, Raise e) => (out, Raise e)
  end.

(** [try: m except Exception as e: h(e)] *)
Definition try_except {A} (m : io A) (h : exn -> io A) : io A :=
  match m with
  | (out, Raise e) => let (out', r) := h e in (out ++ out', r)
  | (out, Return a) => (out, Return a)
  end.

End Py.

Import Py.

Declare Scope py_scope.
Delimit Scope py_scope with py.
Notation "x <- m ;; k" := (bind m (fun x => k))
  (at level 61, m at next level, right associativity) : py_scope.
Notation "x <~ m ;; k" := (io_bind m (fun x => k))
  (at level 61, m at next level, right associativity) : py_scope.
Local Open Scope py_scope.


(* ================================================================== *)
(** * [os.path.splitext] (posixpath) *)
(* ================================================================== *)

Module OsPath.

(** [os.path.splitext(p)]: the extension starts at the last dot of the last
    path component, unless that component has only dots before it. *)
Definition splitext (p : str) : str * str :=
  let sepIndex := rfind_all p (lit "/") in
  let dotIndex := rfind_all p (lit ".") in
  if sepIndex <? dotIndex then
    if existsb (fun c => negb (ascii_eqb c "."%char)) (slice p (sepIndex + 1) dotIndex)
    then (slice_to p dotIndex, slice_from p dotIndex)
    else (p, [])
  else (p, []).

End OsPath.

(* ================================================================== *)
(** * utils/document_processor.py *)
(* ================================================================== *)

Module DocumentProcessor.

(** A table cell: missing ([NaN]) or a value, kept as its text. *)
Inductive cell : Type :=
| NaN
| Value (text : str).

(** A pandas DataFrame: the column names and the rows, in order. *)
Record DataFrame : Type := mkDataFrame {
  columns : list str;
  rows : list (list cell)
}.

(** What the chunker takes from the PDF readers and from pandas.
    [read_pdf_text] is the text extraction of [process_pdf] (PyPDF2, else
    pdfplumber) followed by [clean_text]; [read_excel] gives the sheets of a
    workbook in order, with their names. *)
Record Env : Type := mkEnv {
  read_pdf_text : str -> outcome str;
  read_csv : str -> outcome DataFrame;
  read_excel : str -> outcome (list (str * DataFrame));
  dtype_str : DataFrame -> str -> str;
  to_csv : DataFrame -> str
}.

(** ** The sliding window over prose *)

(** [a > b + chunk_size / 2] for integers [a], [b]. The source divides as
    floats; for positions below 2^53 the doubles are exact, and Python
    compares an integer with a float exactly. *)
Definition past_half (a b chunk_size : Z) : bool :=
  2 * b + chunk_size <? 2 * a.

(** Where the chunk starting at [current_pos] ends. *)
Definition chunk_end_of (text : str) (current_pos chunk_size : Z) : Z :=
  let chunk_end := Z.min (current_pos + chunk_size) (len text) in
  if chunk_end <? len text then
    let paragraph_end := rfind text (nl ++ nl) current_pos chunk_end in
    if negb (paragraph_end =? -1) && past_half paragraph_end current_pos chunk_size
    then paragraph_end + 2
    else
      let sentence_end :=
        Z.max (rfind text (lit ". ") current_pos chunk_end)
              (Z.max (rfind text (lit "? ") current_pos chunk_end)
                     (rfind text (lit "! ") current_pos chunk_end)) in
      if negb (sentence_end =? -1) && past_half sentence_end current_pos chunk_size
      then sentence_end + 2
      else chunk_end
  else chunk_end.

(** The next window start. *)
Definition next_pos (current_pos chunk_size overlap : Z) : Z :=
  Z.max (current_pos + chunk_size - overlap) (current_pos + 1).

(** The [while] loop of [process_pdf]; [None] when [fuel] iterations were
    not enough to leave it. *)
Fixpoint chunk_loop (fuel : nat) (text : str) (chunk_size overlap : Z)
    (current_pos : Z) (chunks : list str) : option (list str) :=
  if current_pos <? len text then
    match fuel with
    | O => None
    | S fuel' =>
        let chunk_end := chunk_end_of text current_pos chunk_size in
        let chunk := strip (slice text current_pos chunk_end) in
        let chunks' :=
          match chunk with
          | [] => chunks
          | _ :: _ => chunks ++ [chunk]
          end in
        let current_pos' := next_pos current_pos chunk_size overlap in
        if len text <=? current_pos' then Some chunks'
        else chunk_loop fuel' text chunk_size overlap current_pos' chunks'
    end
  else Some chunks.

(** The chunking part of [process_pdf], on the cleaned text. One iteration
    per character is enough fuel, see [chunk_loop_terminates]. *)
Definition split_text (text : str) (chunk_size overlap : Z) : option (list str) :=
  chunk_loop (length text) text chunk_size overlap 0 [].

Definition process_pdf (env : Env) (file_path : str) (chunk_size overlap : Z)
  : outcome (list str) :=
  extracted_text <- read_pdf_text env file_path ;;
  match split_text extracted_text chunk_size overlap with
  | Some chunks => Return chunks
  | None => Raise (OtherError (lit "chunking did not finish"))
  end.

(** ** Tables *)

(** [df.fillna('')] *)
Definition fillna (df : DataFrame) : DataFrame :=
  mkDataFrame (columns df)
    (map (map (fun c => match c with NaN => Value [] | Value t => Value t end))
         (rows df)).

(** [df.iloc[i:j]] *)
Definition iloc (df : DataFrame) (i j : Z) : DataFrame :=
  mkDataFrame (columns df) (slice (rows df) i j).

(** [if sheet_name:] *)
Definition truthy (sheet_name : option str) : bool :=
  match sheet_name with
  | Some (_ :: _) => true
  | _ => false
  end.

Definition sheet_text (sheet_name : option str) : str :=
  match sheet_name with
  | Some s => s
  | None => []
  end.

Definition schema_info (env : Env) (df : DataFrame) (total_rows : Z)
    (sheet_name : option str) : str :=
  (lit "Schema Information:" ++ nl)
  ++ (if truthy sheet_name then lit "Sheet: " ++ sheet_text sheet_name ++ nl else [])
  ++ (lit "Total Rows: " ++ str_of_int total_rows ++ nl)
  ++ (lit "Columns:" ++ nl)
  ++ flat_map
       (fun col => lit "- " ++ col ++ lit " (" ++ dtype_str env df col ++ lit ")" ++ nl)
       (columns df).

(** The rows of the group that starts at row [i]. *)
Definition row_group (df : DataFrame) (total_rows max_rows_per_chunk i : Z) : DataFrame :=
  iloc df i (Z.min (i + max_rows_per_chunk) total_rows).

(** The text of the group that starts at row [i]. *)
Definition row_chunk (env : Env) (df : DataFrame) (total_rows max_rows_per_chunk : Z)
    (sheet_name : option str) (i : Z) : str :=
  let end_idx := Z.min (i + max_rows_per_chunk) total_rows in
  let csv_str := to_csv env (row_group df total_rows max_rows_per_chunk i) in
  (lit "Data Rows " ++ str_of_int (i + 1) ++ lit " to " ++ str_of_int end_idx)
  ++ (if truthy sheet_name then lit " (Sheet: " ++ sheet_text sheet_name ++ lit ")" else [])
  ++ (lit ":" ++ nl ++ csv_str).

Definition dataframe_to_chunks (env : Env) (df : DataFrame) (max_rows_per_chunk : Z)
    (sheet_name : option str) : outcome (list str) :=
  let total_rows := len (rows df) in
  let df := fillna df in
  starts <- range 0 total_rows max_rows_per_chunk ;;
  Return (schema_info env df total_rows sheet_name
          :: map (row_chunk env df total_rows max_rows_per_chunk sheet_name) starts).

Definition process_csv (env : Env) (file_path : str) (max_rows_per_chunk : Z)
  : io (list str) :=
  try_except
    (io_lift (df <- read_csv env file_path ;;
              dataframe_to_chunks env df max_rows_per_chunk None))
    (fun e =>
       _ <~ print (lit "Error processing CSV: " ++ exn_msg e) ;;
       io_ret []).

Definition process_excel (env : Env) (file_path : str) (max_rows_per_chunk : Z)
  : io (list str) :=
  try_except
    (io_lift (sheets <- read_excel env file_path ;;
              per_sheet <- traverse
                (fun sheet => dataframe_to_chunks env (snd sheet) max_rows_per_chunk
                                (Some (fst sheet)))
                sheets ;;
              Return (concat per_sheet)))
    (fun e =>
       _ <~ print (lit "Error processing Excel: " ++ exn_msg e) ;;
       io_ret []).

(** ** The entry point *)

Definition process_document (env : Env) (file_path : str) : io (list str) :=
  let file_extension := lower (snd (OsPath.splitext file_path)) in
  try_except
    (if str_eqb file_extension (lit ".pdf") then
       io_lift (process_pdf env file_path 1000 200)
     else if str_eqb file_extension (lit ".csv") then
       process_csv env file_path 50
     else if mem file_extension [lit ".xlsx"; lit ".xls"] then
       process_excel env file_path 50
     else
       io_lift (Raise (ValueError (lit "Unsupported file extension: " ++ file_extension))))
    (fun e =>
       _ <~ print (lit "Error processing document: " ++ exn_msg e) ;;
       io_ret []).

End DocumentProcessor.

(* ================================================================== *)
(** * utils/embeddings.py *)
(* ================================================================== *)

Module Embeddings.

(** A numpy vector, read as float64 (the dtype of the [np.zeros] fallback
    of [generate_embeddings]; the model itself yields float32 rows, on which
    the same operations round to fewer digits). *)
Definition vec := list float.

(** [np.all(v == 0)] *)
Definition all_zero (v : vec) : bool :=
  forallb (fun x => PrimFloat.eqb x 0%float) v.

(** [np.dot(v1, v2)] for two vectors of one length, as the sum of the
    rounded products taken from the left. numpy hands the sum to its BLAS
    routine, which may add in another order or fuse a product with an
    addition, so that on some inputs its double is a neighbour of this one;
    what is proved of scores below does not depend on which of them it is. *)
Definition dot (v1 v2 : vec) : float :=
  fold_left (fun acc xy => (acc + fst xy * snd xy)%float) (combine v1 v2) 0%float.

(** [np.linalg.norm(v)]: the square root of [v.dot(v)]. *)
Definition norm (v : vec) : float := PrimFloat.sqrt (dot v v).

(** [np.dot] raises a ValueError on vectors of different lengths. Its
    message names the two shapes in the order of the arguments; the
    embedding keeps one message for all of them, so it says that the shape
    error is raised and not what its text is. *)
Definition shape_error : exn := ValueError (lit "shapes not aligned").

Definition cosine_similarity (v1 v2 : vec) : outcome float :=
  if all_zero v1 || all_zero v2 then Return 0%float
  else if negb (length v1 =? length v2)%nat then Raise shape_error
  else
    let dot_product := dot v1 v2 in
    let norm_v1 := norm v1 in
    let norm_v2 := norm v2 in
    if PrimFloat.eqb norm_v1 0%float || PrimFloat.eqb norm_v2 0%float
    then Return 0%float
    else Return (dot_product / (norm_v1 * norm_v2))%float.

End Embeddings.

(** [cosine_similarity] with numpy as a parameter: the element type of the
    arrays (float32 or float64), its zero, [==], [*] and [/], and the
    routines [np.dot] (which raises on shapes that do not fit) and
    [np.linalg.norm]. *)
Module NumpyEmbeddings.

Record Numpy (F : Type) : Type := mkNumpy {
  zero : F;
  feqb : F -> F -> bool;
  fmul : F -> F -> F;
  fdiv : F -> F -> F;
  np_dot : list F -> list F -> outcome F;
  np_norm : list F -> F
}.
Arguments zero {F} _.
Arguments feqb {F} _ _ _.
Arguments fmul {F} _ _ _.
Arguments fdiv {F} _ _ _.
Arguments np_dot {F} _ _ _.
Arguments np_norm {F} _ _.

(** [np.all(v == 0)] *)
Definition all_zero {F} (np : Numpy F) (v : list F) : bool :=
  forallb (fun x => feqb np x (zero np)) v.

Definition cosine_similarity {F} (np : Numpy F) (v1 v2 : list F) : outcome F :=
  if all_zero np v1 || all_zero np v2 then Return (zero np)
  else
    dot_product <- np_dot np v1 v2 ;;
    let norm_v1 := np_norm np v1 in
    let norm_v2 := np_norm np v2 in
    if feqb np norm_v1 (zero np) || feqb np norm_v2 (zero np)
    then Return (zero np)
    else Return (fdiv np dot_product (fmul np norm_v1 norm_v2)).

(** numpy on float64 arrays, with the dot product of [Embeddings]. *)
Definition float64 : Numpy float :=
  mkNumpy float 0%float PrimFloat.eqb PrimFloat.mul PrimFloat.div
    (fun v1 v2 =>
       if negb (length v1 =? length v2)%nat then Raise Embeddings.shape_error
       else Return (Embeddings.dot v1 v2))
    Embeddings.norm.

End NumpyEmbeddings.

(* ================================================================== *)
(** * utils/retriever.py *)
(* ================================================================== *)

Module Retriever.

Import Embeddings.

(** A chunk index with its similarity score. *)
Definition scored : Type := (Z * float)%type.

(** [enumerate(l)], counting from [i]. *)
Fixpoint enumerate_from {A} (i : Z) (l : list A) : list (Z * A) :=
  match l with
  | [] => []
  | x :: l' => (i, x) :: enumerate_from (i + 1) l'
  end.

Definition enumerate {A} (l : list A) : list (Z * A) := enumerate_from 0 l.

(** The first loop: one score per embedding row, in row order. *)
Definition similarities (query_embedding : vec) (embeddings : list vec)
  : outcome (list scored) :=
  traverse
    (fun row =>
       similarity <- cosine_similarity query_embedding (snd row) ;;
       Return (fst row, similarity))
    (enumerate embeddings).

(** [similarities.sort(key=lambda x: x[1], reverse=True)]. Python's sort is
    stable, also when reversed, and compares keys with [<] only; on keys that
    [<] orders totally its result is the one of this insertion sort. With a
    NaN among the keys [<] is no order and the two can arrange the list
    differently (both still permute it), so what is proved of the order
    below assumes that no score is NaN. *)
Fixpoint insert_desc (x : scored) (l : list scored) : list scored :=
  match l with
  | [] => [x]
  | y :: l' =>
      if (snd x <? snd y)%float then y :: insert_desc x l' else x :: l
  end.

Definition sort_desc (l : list scored) : list scored :=
  fold_right insert_desc [] l.

(** The pairs [top_similarities] of the source. *)
Definition top_similarities (query_embedding : vec) (embeddings : list vec)
    (top_k : Z) (similarity_threshold : float) : outcome (list scored) :=
  sims <- similarities query_embedding embeddings ;;
  let sorted := sort_desc sims in
  let filtered_similarities :=
    filter (fun p => (similarity_threshold <=? snd p)%float) sorted in
  Return (slice_to filtered_similarities top_k).

(** [documents[i]] *)
Definition getitem (documents : list str) (i : Z) : outcome str :=
  let j := if i <? 0 then i + len documents else i in
  if (0 <=? j) && (j <? len documents)
  then Return (nth (Z.to_nat j) documents [])
  else Raise (IndexError (lit "list index out of range")).

(** [embed_query] is the sentence-embedding model (it returns a vector also
    when the model fails); [embeddings] is [None] or the array of rows. *)
Definition retrieve_context (embed_query : str -> vec) (query : str)
    (documents : list str) (embeddings : option (list vec))
    (top_k : Z) (similarity_threshold : float) : outcome (list str * list Z) :=
  match documents, embeddings with
  | [], _ => Return ([], [])
  | _, None => Return ([], [])
  | _ :: _, Some rows =>
      let query_embedding := embed_query query in
      top <- top_similarities query_embedding rows top_k similarity_threshold ;;
      let context_indices := map fst top in
      contexts <- traverse (getitem documents) context_indices ;;
      Return (contexts, context_indices)
  end.

End Retriever.

(* ================================================================== *)
(** * utils/generator.py *)
(* ================================================================== *)

Module Generator.

Local Open Scope string_scope.

Definition stopwords : list str :=
  map lit
    ["what"; "is"; "are"; "the"; "a"; "an"; "of"; "in"; "for"; "to"; "and";
     "with"; "on"; "by"; "from"; "about"; "as"; "how"; "much"; "many"; "where";
     "when"; "which"; "who"; "whom"; "whose"; "why"; "can"; "could"; "did";
     "do"; "does"; "has"; "have"; "had"; "been"; "being"; "was"; "were"; "will"].

Definition insufficient : str :=
  lit "I don't have sufficient information in the document to answer this question.".

Definition answer_prefix : str := lit "Based on the financial document, ".

Definition fallback_prefix : str :=
  lit "I found the following information in the document that might help answer your question: ".

Local Close Scope string_scope.

(** [[word for word in query_lower.split() if word not in stopwords]] *)
Definition keywords (query : str) : list str :=
  filter (fun word => negb (mem word stopwords)) (split_ws (lower query)).

(** [any(keyword in text.lower() for keyword in keywords)] *)
Definition has_keyword (kws : list str) (text : str) : bool :=
  existsb (fun keyword => contains keyword (lower text)) kws.

(** The body of the loop over the sentences of one context. *)
Definition add_sentence (kws : list str) (relevant_sentences : list str)
    (sentence : str) : list str :=
  if has_keyword kws sentence then
    if negb (mem sentence relevant_sentences) && (10 <? len sentence)
    then relevant_sentences ++ [sentence]
    else relevant_sentences
  else relevant_sentences.

(** The body of the loop over the contexts. *)
Definition scan_context (kws : list str) (relevant_sentences : list str)
    (context : str) : list str :=
  if has_keyword kws context
  then fold_left (add_sentence kws) (split context (lit ". ")) relevant_sentences
  else relevant_sentences.

Definition relevant_sentences (kws : list str) (contexts : list str) : list str :=
  fold_left (scan_context kws) contexts [].

Definition clean_sentence (sentence : str) : str :=
  let clean := strip sentence in
  if endswith clean (lit ".") then clean else clean ++ lit ".".

(** The loop that builds the answer from the first five sentences. *)
Definition build_answer (sentences : list str) : str :=
  fold_left
    (fun answer item =>
       (if 0 <? fst item then answer ++ lit " " else answer)
       ++ clean_sentence (snd item))
    (Retriever.enumerate (slice_to sentences 5))
    answer_prefix.

(** [generate_answer]; no step of its body raises on strings, so the
    [except] branch is never taken and the result is always a string. *)
Definition generate_answer (query : str) (contexts : list str) : str :=
  match contexts with
  | [] => insufficient
  | first :: _ =>
      let relevant := relevant_sentences (keywords query) contexts in
      match relevant with
      | _ :: _ => build_answer relevant
      | [] => fallback_prefix ++ first
      end
  end.

End Generator.

Import OsPath DocumentProcessor Embeddings Retriever Generator.

(* ================================================================== *)
(** * Vocabulary of the composer's properties *)
(* ================================================================== *)

Module Kept.

(** A sentence the composer may keep: it has a keyword and more than ten
    characters. *)
Definition qualifies (kws : list str) (sentence : str) : bool :=
  has_keyword kws sentence && (10 <? len sentence).

(** The list without repeats, every string at its first place. *)
Fixpoint dedup_first (l : list str) : list str :=
  match l with
  | [] => []
  | x :: l' => x :: filter (fun y => negb (str_eqb y x)) (dedup_first l')
  end.

(** [sep.join(l)] *)
Fixpoint join (sep : str) (l : list str) : str :=
  match l with
  | [] => []
  | x :: l' =>
      match l' with
      | [] => x
      | _ :: _ => x ++ sep ++ join sep l'
      end
  end.

(** [p] occurs in [t] as a run of consecutive characters. *)
Definition segment (p t : str) : Prop := exists pre post, t = pre ++ p ++ post.

End Kept.

Import Kept.

(* ================================================================== *)
(** * Vocabulary of the retriever's properties *)
(* ================================================================== *)

Module Ranking.

(** [p] may stand before [q] in the ranking: the score of [q] is not above
    the score of [p], and on equal scores [p] is the earlier chunk. *)
Definition ranked_before (p q : scored) : Prop :=
  (snd q <=? snd p)%float = true
  /\ ((snd p =? snd q)%float = true -> fst p < fst q).

End Ranking.

Import Ranking.

(* ================================================================== *)
(** * Sample inputs *)
(* ================================================================== *)

Module Samples.

(** An environment with no readable file. *)
Definition no_files : Env :=
  mkEnv (fun _ => Raise (OtherError (lit "cannot open file")))
        (fun _ => Raise (OtherError (lit "cannot open file")))
        (fun _ => Raise (OtherError (lit "cannot open file")))
        (fun _ _ => lit "object")
        (fun _ => []).

(** The table of the end-to-end scenario: columns revenue and year, three rows. *)
Definition revenue_table : DataFrame :=
  mkDataFrame [lit "revenue"; lit "year"]
    [[Value (lit "100"); Value (lit "2021")];
     [Value (lit "150"); Value (lit "2022")];
     [Value (lit "200"); Value (lit "2023")]].

(** A plain rendering of a table as delimited text: the header line, then
    one line per row, the cells joined by commas. *)
Definition plain_csv (df : DataFrame) : str :=
  let line := fun cells : list str =>
    match cells with
    | [] => nl
    | c :: cs => c ++ flat_map (fun t => lit "," ++ t) cs ++ nl
    end in
  line (columns df)
  ++ flat_map
       (fun r => line (map (fun c => match c with NaN => [] | Value t => t end) r))
       (rows df).

(** An environment whose tables have integer columns and are written with
    [plain_csv]. *)
Definition csv_files : Env :=
  mkEnv (fun _ => Raise (OtherError (lit "cannot open file")))
        (fun _ => Return revenue_table)
        (fun _ => Raise (OtherError (lit "cannot open file")))
        (fun _ _ => lit "int64")
        plain_csv.

(** An embedding model that sends every query to one fixed vector. *)
Definition embed_const (v : vec) : str -> vec := fun _ => v.

Definition unit_x : vec := [1; 0]%float.

Definition four_rows : list vec := [[1; 0]; [0; 1]; [1; 1]; [2; 0]]%float.

(** The scores of [four_rows] against [unit_x]. *)
Definition four_scores : list scored :=
  [(0, 1%float); (1, 0%float); (2, 0x1.6a09e667f3bccp-1%float); (3, 1%float)].

Definition four_docs : list str := [lit "one"; lit "two"; lit "three"; lit "four"].

Definition ones : vec := [1; 1; 1]%float.

(** Three embedding rows, the second with a NaN component. *)
Definition nan_rows : list vec := [[1; 1]; [nan; 0]; [1; 0]]%float.

Definition prose : str :=
  lit "Hello world. This is a test! Another sentence here? Yes.".

End Samples.

(* ================================================================== *)
(** * utils/retriever.py: the prompt builder *)
(* ================================================================== *)

Module Prompt.

Definition quote : str := ["034"%char].

(** [f"\nContext {i+1}:\n{context}\n"] *)
Definition context_addition (i : Z) (context : str) : str :=
  nl ++ lit "Context " ++ str_of_int (i + 1) ++ lit ":" ++ nl ++ context ++ nl.

(** The loop of [augment_query_with_context] over [enumerate(contexts)];
    leaving the recursion is the [break]. *)
Fixpoint combine_contexts (max_context_length : Z) (items : list (Z * str))
    (combined_context : str) (total_length : Z) : str :=
  match items with
  | [] => combined_context
  | item :: rest =>
      let addition := context_addition (fst item) (snd item) in
      if max_context_length <? total_length + len addition then
        if fst item =? 0
        then combined_context ++ slice_to addition max_context_length
        else combined_context
      else
        combine_contexts max_context_length rest
          (combined_context ++ addition) (total_length + len addition)
  end.

Definition combined_context_of (contexts : list str) (max_context_length : Z) : str :=
  combine_contexts max_context_length (enumerate contexts) [] 0.

Definition prompt_head : str :=
  lit "Answer the following question based on the provided context. If you cannot find information in the context to answer the question, say "
  ++ quote ++ lit "I don't have sufficient information to answer this question."
  ++ quote ++ nl ++ nl ++ lit "Context:" ++ nl.

Definition augment_query_with_context (query : str) (contexts : list str)
    (max_context_length : Z) : str :=
  prompt_head ++ combined_context_of contexts max_context_length
  ++ nl ++ nl ++ lit "Question: " ++ query ++ nl ++ nl ++ lit "Answer:".

(** [rerank_contexts]: the contexts in the order given. *)
Definition rerank_contexts (query : str) (contexts : list str)
    (context_indices : list Z) : list str * list Z :=
  (contexts, context_indices).

End Prompt.

(* ================================================================== *)
(** * utils/embeddings.py: the embedding model and its fallback *)
(* ================================================================== *)

Module EmbeddingModel.

(** A loaded sentence-embedding model: [model.encode] on a list of texts and
    on one text, and [model.get_sentence_embedding_dimension()]. *)
Record Model : Type := mkModel {
  encode_many : list str -> outcome (list vec);
  encode_one : str -> outcome vec;
  get_sentence_embedding_dimension : outcome Z
}.

(** [SentenceTransformer(model_name)] *)
Definition Loader : Type := str -> outcome Model.

Definition default_model_name : str := lit "all-MiniLM-L6-v2".

(** [np.zeros(dim)]; numpy refuses a negative dimension. *)
Definition zeros (dim : Z) : outcome vec :=
  if dim <? 0 then Raise (ValueError (lit "negative dimensions are not allowed"))
  else Return (repeat 0%float (Z.to_nat dim)).

(** [np.zeros((n, dim))] *)
Definition zeros2 (n dim : Z) : outcome (list vec) :=
  row <- zeros dim ;; Return (repeat row (Z.to_nat n)).

(** The inner [try] of the handlers: the dimension of the model when it was
    loaded and answers, else 384. When loading failed the name [model] is
    unbound, and the bare [except] catches that too. *)
Definition fallback_dim (loaded : outcome Model) : Z :=
  match loaded with
  | Return model =>
      match get_sentence_embedding_dimension model with
      | Return dim => dim
      | Raise _ => 384
      end
  | Raise _ => 384
  end.

Definition generate_embeddings (load : Loader) (text_chunks : list str)
    (model_name : str) : io (list vec) :=
  let loaded := load model_name in
  try_except
    (io_lift (model <- loaded ;; encode_many model text_chunks))
    (fun e =>
       _ <~ print (lit "Error generating embeddings: " ++ exn_msg e) ;;
       io_lift (zeros2 (len text_chunks) (fallback_dim loaded))).

Definition embed_query (load : Loader) (query : str) (model_name : str) : io vec :=
  let loaded := load model_name in
  try_except
    (io_lift (model <- loaded ;; encode_one model query))
    (fun e =>
       _ <~ print (lit "Error embedding query: " ++ exn_msg e) ;;
       io_lift (zeros (fallback_dim loaded))).

End EmbeddingModel.

(* ================================================================== *)
(** * utils/guardrails.py *)
(* ================================================================== *)

Module Guardrails.

(** [search pattern text] stands for
    [re.search(pattern, text, re.IGNORECASE) is not None]; the regular
    expression engine is a parameter of the validators. *)
Definition Search : Type := str -> str -> bool.

Definition sensitive_patterns : list str :=
  map lit
    ["\bpassword(s)?\b"; "\bcredit\s*card(s)?\b"; "\bsocial\s*security\b";
     "\bhack(ing)?\b"; "\bexploit\b"; "\battack\b"; "\billegal\b";
     "\bunethical\b"]%string.

Definition financial_terms : list str :=
  map lit
    ["\bbalance\s*sheet\b"; "\bincome\s*statement\b"; "\bcash\s*flow\b";
     "\bfinancial\s*statement\b"; "\bassets?\b"; "\bliabilit(y|ies)\b";
     "\bequity\b"; "\brevenue\b"; "\bprofit\b"; "\bloss\b"; "\bexpenses?\b";
     "\btaxes?\b"; "\bdividend\b"; "\bearnings\b"; "\bebitda\b"; "\bratio\b";
     "\bmargin\b"; "\bdebt\b"; "\bq[1-4]\b"; "\bfiscal\b"; "\bquarter(ly)?\b";
     "\bannual\b"]%string.

Definition harmful_patterns : list str :=
  map lit
    ["\bhow\s+to\s+hack\b"; "\bhow\s+to\s+exploit\b"; "\bhow\s+to\s+attack\b";
     "\billegal\s+\w+\s+to\b"; "\bunethical\s+\w+\s+to\b"]%string.

Definition too_short_message : str :=
  lit "Please enter a valid question with at least 3 characters.".

Definition too_long_message : str :=
  lit "Your question is too long. Please limit it to 500 characters.".

Definition sensitive_message : str :=
  lit "Your question appears to be requesting sensitive or potentially harmful information.".

Definition no_answer_message : str :=
  lit "I couldn't generate a meaningful answer to your question. Please try rephrasing or ask a different question.".

Definition harmful_message : str :=
  lit "I apologize, but I cannot provide information that could be used for harmful purposes.".

Definition disclaimer : str :=
  nl ++ nl
  ++ lit "**Disclaimer**: This response is for informational purposes only and does not constitute financial advice. Always consult with a qualified financial professional before making investment decisions.".

Definition uncertainty_note : str :=
  lit "Note: There is some uncertainty in this answer. Please verify with the source document."
  ++ nl ++ nl.

Definition uncertainty_markers : list str :=
  map lit ["might"; "may"; "could"; "possibly"; "perhaps"; "I think"; "likely"]%string.

(** The first pattern that matches decides: [True]. *)
Definition check_financial_relevance (search : Search) (text : str) : bool :=
  existsb (fun pattern => search pattern text) financial_terms.

Definition input_validator (search : Search) (query : str) : bool * str :=
  if match query with [] => true | _ :: _ => false end || (len (strip query) <? 3)
  then (false, too_short_message)
  else if 500 <? len query then (false, too_long_message)
  else if existsb (fun pattern => search pattern query) sensitive_patterns
  then (false, sensitive_message)
  else
    let financial_query := check_financial_relevance search query in
    if negb financial_query then (true, []) else (true, []).

(** [sum(1 for marker in uncertainty_markers if marker in answer.lower())] *)
Definition uncertainty_count (answer : str) : Z :=
  len (filter (fun marker => contains marker (lower answer)) uncertainty_markers).

Definition output_validator (search : Search) (answer : str) : str :=
  if match answer with [] => true | _ :: _ => false end || (len (strip answer) <? 10)
  then no_answer_message
  else if existsb (fun pattern => search pattern answer) harmful_patterns
  then harmful_message
  else
    let answer1 :=
      if contains (lit "financial advice") (lower answer)
         || contains (lit "investment advice") (lower answer)
      then if negb (contains disclaimer answer) then answer ++ disclaimer else answer
      else answer in
    let explicit_uncertainty :=
      contains (lit "I'm not entirely sure") answer1
      || contains (lit "I'm uncertain") answer1 in
    if (2 <=? uncertainty_count answer1) && negb explicit_uncertainty
    then uncertainty_note ++ answer1
    else answer1.

End Guardrails.

(* ================================================================== *)
(** * utils/document_processor.py: [clean_text] *)
(* ================================================================== *)

Module CleanText.

Definition is_nl (c : ascii) : bool := ascii_eqb "010"%char c.

Definition is_blank (c : ascii) : bool := ascii_eqb " "%char c.

(** A character of the class [[.,;:!?)]]. *)
Definition closing (c : ascii) : bool :=
  existsb (fun p => ascii_eqb p c) (lit ".,;:!?)").

(** A character of the class [[({]]. *)
Definition opening (c : ascii) : bool :=
  existsb (fun p => ascii_eqb p c) (lit "({").

(** [re.sub(r'\n{3,}', '\n\n', text)]: of a run of three or more newlines
    the last two stay, that is, a newline goes when two newlines follow it. *)
Fixpoint sub_newlines (s : str) : str :=
  match s with
  | [] => []
  | c :: t =>
      if is_nl c && startswith t (nl ++ nl) then sub_newlines t
      else c :: sub_newlines t
  end.

(** [re.sub(r' {2,}', ' ', text)]: a space goes when a space follows it. *)
Fixpoint sub_spaces (s : str) : str :=
  match s with
  | [] => []
  | c :: t =>
      if is_blank c && startswith t (lit " ") then sub_spaces t
      else c :: sub_spaces t
  end.

(** The white space from here on is followed by a closing character. *)
Definition before_closing (t : str) : bool :=
  match lstrip t with
  | c :: _ => closing c
  | [] => false
  end.

(** [re.sub(r'\s+([.,;:!?)])', r'\1', text)]: a maximal run of white space
    goes when a closing character follows it. *)
Fixpoint sub_before (s : str) : str :=
  match s with
  | [] => []
  | c :: t =>
      if isspace c && before_closing t then sub_before t
      else c :: sub_before t
  end.

(** [re.sub(r'([({])\s+', r'\1', text)]: the white space that follows an
    opening character goes; [drop] says that the last character kept was an
    opening one and only white space was passed since. *)
Fixpoint sub_after (drop : bool) (s : str) : str :=
  match s with
  | [] => []
  | c :: t =>
      if drop && isspace c then sub_after true t
      else c :: sub_after (opening c) t
  end.

Definition clean_text (text : str) : str :=
  strip (sub_after false (sub_before (sub_spaces (sub_newlines text)))).

End CleanText.

(* ================================================================== *)
(** * More sample inputs *)
(* ================================================================== *)

Module MoreSamples.

(** A loader whose model cannot be loaded. *)
Definition no_model : EmbeddingModel.Loader :=
  fun _ => Raise (OtherError (lit "model not found")).

(** A search that finds nothing. *)
Definition never : Guardrails.Search := fun _ _ => false.

(** A readable environment: every path holds the revenue table. *)
Definition revenue_files : Env :=
  mkEnv (fun _ => Return (lit "Revenue grew. Costs fell."))
        (fun _ => Return Samples.revenue_table)
        (fun _ => Return [(lit "2023", Samples.revenue_table)])
        (fun _ _ => lit "int64")
        (fun _ => lit "csv").

End MoreSamples.

(* ================================================================== *)
(** * Tactics *)
(* ================================================================== *)

Ltac cmp_cases :=
  repeat match goal with
  | H : context [Z.compare ?a ?b] |- _ => destruct (Z.compare_spec a b)
  | |- context [Z.compare ?a ?b] => destruct (Z.compare_spec a b)
  | H : context [Pos.compare ?a ?b] |- _ => destruct (Pos.compare_spec a b)
  | |- context [Pos.compare ?a ?b] => destruct (Pos.compare_spec a b)
  end.

(** Comparisons of specification floats, by cases on sign, exponent and
    mantissa. *)
Ltac sf_order :=
  unfold SFleb, SFltb, SFeqb, SFcompare;
  intros;
  repeat match goal with
  | x : spec_float |- _ => destruct x
  | b : bool |- _ => destruct b
  end;
  try discriminate; try reflexivity;
  change (Pos.compare_cont Eq) with Pos.compare in *;
  cmp_cases; subst; simpl in *;
  try discriminate; try reflexivity; try lia.

(* ================================================================== *)
(** * Facts about the built-ins *)
(* ================================================================== *)

Lemma ascii_eqb_eq (a b : ascii) : ascii_eqb a b = true <-> a = b.
Proof. unfold ascii_eqb. apply Ascii.eqb_eq. Qed.

Lemma str_eqb_eq (a b : str) : str_eqb a b = true <-> a = b.
Proof.
  revert b. induction a as [|x a IH]; intros [|y b]; simpl; split;
    try discriminate; try reflexivity.
  - intros H. apply andb_true_iff in H as [Hx Ha].
    apply ascii_eqb_eq in Hx. apply IH in Ha. congruence.
  - intros H. injection H as -> ->. apply andb_true_iff. split.
    + now apply ascii_eqb_eq.
    + now apply IH.
Qed.

Lemma mem_In (x : str) (l : list str) : mem x l = true <-> In x l.
Proof.
  unfold mem. rewrite existsb_exists. split.
  - intros (y & Hy & E). apply str_eqb_eq in E. now subst.
  - intros H. exists x. split; [assumption | now apply str_eqb_eq].
Qed.

Lemma mem_false_not_In (x : str) (l : list str) : mem x l = false <-> ~ In x l.
Proof.
  rewrite <- mem_In. destruct (mem x l); split; intros; congruence.
Qed.

Lemma len_nonneg {A} (l : list A) : 0 <= len l.
Proof. unfold len. lia. Qed.

Lemma norm_index_range (n i : Z) : 0 <= n -> 0 <= norm_index n i <= n.
Proof. unfold norm_index. destruct (i <? 0) eqn:E; lia. Qed.

Lemma slice_length_le {A} (l : list A) (a b : Z) :
  0 <= a <= len l -> 0 <= b -> len (slice l a b) <= b - a \/ slice l a b = [].
Proof.
  intros Ha Hb. unfold slice, norm_index.
  assert (Ea : (a <? 0) = false) by lia. assert (Eb : (b <? 0) = false) by lia.
  rewrite Ea, Eb. unfold len in *.
  destruct (Z_le_gt_dec (Z.min b (Z.of_nat (length l)) - Z.min a (Z.of_nat (length l))) 0) as [H|H].
  - right. replace (Z.to_nat _) with 0%nat by lia. reflexivity.
  - left. rewrite length_firstn. lia.
Qed.

Lemma slice_nil {A} (a b : Z) : slice (@nil A) a b = [].
Proof. unfold slice. rewrite skipn_nil. apply firstn_nil. Qed.

Lemma lstrip_length (s : str) : (length (lstrip s) <= length s)%nat.
Proof.
  induction s as [|c s IH]; simpl; [lia|].
  destruct (isspace c); simpl; lia.
Qed.

Lemma strip_length (s : str) : (length (strip s) <= length s)%nat.
Proof.
  unfold strip. rewrite length_rev.
  etransitivity; [apply lstrip_length|]. rewrite length_rev. apply lstrip_length.
Qed.

Lemma rfind_scan_range (sub s : str) (lo n : nat) :
  rfind_scan sub s lo n = -1 \/
  Z.of_nat lo <= rfind_scan sub s lo n < Z.of_nat lo + Z.of_nat n.
Proof.
  induction n as [|n IH]; simpl; [now left|].
  destruct (startswith (skipn (lo + n) s) sub).
  - right. lia.
  - destruct IH as [IH|IH]; [now left | right; lia].
Qed.

(** An occurrence found by [rfind] ends at or before the end bound. *)
Lemma rfind_range (s sub : str) (start stop : Z) :
  0 <= start -> 0 <= stop ->
  rfind s sub start stop = -1 \/
  (start <= rfind s sub start stop /\ rfind s sub start stop + len sub <= stop).
Proof.
  intros Hs He. unfold rfind, norm_index.
  assert (E1 : (start <? 0) = false) by lia. assert (E2 : (stop <? 0) = false) by lia.
  rewrite E1, E2.
  destruct (Z.min stop (len s) - start <? len sub) eqn:E; [now left|].
  apply Z.ltb_ge in E.
  destruct (rfind_scan_range sub s (Z.to_nat start)
              (Z.to_nat (Z.min stop (len s) - len sub - start + 1))) as [H|H];
    [now left | right]. pose proof (len_nonneg sub). lia.
Qed.

(* ================================================================== *)
(** * The format check of [process_document] (C1) *)
(* ================================================================== *)

Lemma process_document_txt_returns_empty :
  ~ In (lower (snd (splitext (lit "notes.txt"))))
       [lit ".pdf"; lit ".csv"; lit ".xlsx"; lit ".xls"]
  /\ process_document Samples.no_files (lit "notes.txt")
     = ([lit "Error processing document: Unsupported file extension: .txt"], Return []).
Proof.
  split.
  - apply mem_false_not_In. vm_compute. reflexivity.
  - vm_compute. reflexivity.
Qed.

(** C1 (as the code has it): for every file whose lowercased extension is
    none of .pdf, .csv, .xlsx, .xls, [process_document] raises the
    unsupported-extension error inside its own [try], catches it, prints
    the message and returns the empty chunk list; nothing is raised to the
    caller. *)
Theorem process_document_unsupported_returns_empty (env : Env) (file_path : str) :
  ~ In (lower (snd (splitext file_path)))
       [lit ".pdf"; lit ".csv"; lit ".xlsx"; lit ".xls"] ->
  process_document env file_path
  = ([lit "Error processing document: Unsupported file extension: "
      ++ lower (snd (splitext file_path))],
     Return []).
Proof.
  intros Hext. unfold process_document.
  set (ext := lower (snd (splitext file_path))) in *.
  assert (Hpdf : str_eqb ext (lit ".pdf") = false).
  { destruct (str_eqb ext (lit ".pdf")) eqn:E; [|reflexivity].
    apply str_eqb_eq in E. exfalso. apply Hext. rewrite E. simpl. tauto. }
  assert (Hcsv : str_eqb ext (lit ".csv") = false).
  { destruct (str_eqb ext (lit ".csv")) eqn:E; [|reflexivity].
    apply str_eqb_eq in E. exfalso. apply Hext. rewrite E. simpl. tauto. }
  assert (Hxl : mem ext [lit ".xlsx"; lit ".xls"] = false).
  { apply mem_false_not_In. intros H. apply Hext. simpl in *. tauto. }
  rewrite Hpdf, Hcsv, Hxl. reflexivity.
Qed.

Lemma process_document_unsupported_witness :
  process_document Samples.no_files (lit "balance.docx")
  = ([lit "Error processing document: Unsupported file extension: .docx"], Return []).
Proof.
  apply (process_document_unsupported_returns_empty Samples.no_files (lit "balance.docx")).
  apply mem_false_not_In. vm_compute. reflexivity.
Defined.

(* ================================================================== *)
(** * The empty context list (C10) *)
(* ================================================================== *)

(** C10: for every query, [generate_answer] on an empty context list returns
    the fixed insufficient-information message; it returns a string, so no
    exception leaves it. *)
Theorem generate_answer_empty_contexts (query : str) :
  generate_answer query [] = insufficient.
Proof. reflexivity. Qed.

(* ================================================================== *)
(** * The sliding window of [process_pdf] (C6, C7) *)
(* ================================================================== *)

Lemma next_pos_advance (current_pos chunk_size overlap : Z) :
  next_pos current_pos chunk_size overlap
  = current_pos + Z.max (chunk_size - overlap) 1.
Proof. unfold next_pos. lia. Qed.

Lemma chunk_loop_enough_fuel (fuel : nat) (text : str) (chunk_size overlap : Z) :
  forall (current_pos : Z) (chunks : list str),
    (Z.to_nat (len text - current_pos) <= fuel)%nat ->
    exists result,
      chunk_loop fuel text chunk_size overlap current_pos chunks = Some result.
Proof.
  induction fuel as [|fuel IH]; intros pos chunks Hfuel.
  - simpl. destruct (pos <? len text) eqn:E.
    + apply Z.ltb_lt in E. exfalso. lia.
    + now exists chunks.
  - simpl. destruct (pos <? len text) eqn:E; [|now exists chunks].
    apply Z.ltb_lt in E.
    destruct (len text <=? next_pos pos chunk_size overlap) eqn:E'.
    + eexists. reflexivity.
    + apply IH. rewrite next_pos_advance. lia.
Qed.

(** C7: every iteration moves the window start by [chunk_size - overlap],
    and by 1 when that is smaller, so the start grows strictly; from any
    start the loop is left after at most one iteration per remaining
    character, and [split_text] returns a chunk list. *)
Theorem chunk_loop_terminates (text : str) (chunk_size overlap : Z)
    (current_pos : Z) (chunks : list str) :
  next_pos current_pos chunk_size overlap
    = current_pos + Z.max (chunk_size - overlap) 1
  /\ current_pos + 1 <= next_pos current_pos chunk_size overlap
  /\ (exists result,
        chunk_loop (Z.to_nat (len text - current_pos)) text chunk_size overlap
          current_pos chunks = Some result)
  /\ (exists result, split_text text chunk_size overlap = Some result).
Proof.
  split; [apply next_pos_advance|].
  split; [rewrite next_pos_advance; lia|].
  split.
  - apply chunk_loop_enough_fuel. lia.
  - unfold split_text. apply chunk_loop_enough_fuel. unfold len. lia.
Qed.

(** The end of a window is the window cut, or two characters past a
    boundary found in the window's back half. *)
Lemma chunk_end_of_cases (text : str) (current_pos chunk_size : Z) :
  let window_end := Z.min (current_pos + chunk_size) (len text) in
  let paragraph_end := rfind text (nl ++ nl) current_pos window_end in
  let sentence_end :=
    Z.max (rfind text (lit ". ") current_pos window_end)
          (Z.max (rfind text (lit "? ") current_pos window_end)
                 (rfind text (lit "! ") current_pos window_end)) in
  let chunk_end := chunk_end_of text current_pos chunk_size in
  (chunk_end = paragraph_end + 2 /\ paragraph_end <> -1
   /\ 2 * current_pos + chunk_size < 2 * paragraph_end)
  \/ (chunk_end = sentence_end + 2 /\ sentence_end <> -1
      /\ 2 * current_pos + chunk_size < 2 * sentence_end)
  \/ chunk_end = window_end.
Proof.
  cbv zeta. unfold chunk_end_of, past_half.
  destruct (Z.min (current_pos + chunk_size) (len text) <? len text); [|now right; right].
  match goal with |- context [negb (?p =? -1) && (?h <? ?q)] =>
    destruct (negb (p =? -1) && (h <? q)) eqn:E1 end.
  - left. apply andb_true_iff in E1 as [Ha Hb].
    apply negb_true_iff, Z.eqb_neq in Ha. apply Z.ltb_lt in Hb. auto.
  - match goal with |- context [negb (?p =? -1) && (?h <? ?q)] =>
      destruct (negb (p =? -1) && (h <? q)) eqn:E2 end.
    + right; left. apply andb_true_iff in E2 as [Ha Hb].
      apply negb_true_iff, Z.eqb_neq in Ha. apply Z.ltb_lt in Hb. auto.
    + now right; right.
Qed.

Lemma chunk_end_of_le (text : str) (current_pos chunk_size : Z) :
  0 <= current_pos -> 0 <= chunk_size ->
  0 <= chunk_end_of text current_pos chunk_size <= current_pos + chunk_size.
Proof.
  intros Hp Hs. pose proof (len_nonneg text) as Hl.
  set (w := Z.min (current_pos + chunk_size) (len text)).
  assert (Hw : 0 <= w) by (unfold w; lia).
  pose proof (rfind_range text (nl ++ nl) current_pos w Hp Hw) as R0.
  pose proof (rfind_range text (lit ". ") current_pos w Hp Hw) as R1.
  pose proof (rfind_range text (lit "? ") current_pos w Hp Hw) as R2.
  pose proof (rfind_range text (lit "! ") current_pos w Hp Hw) as R3.
  change (len (nl ++ nl)) with 2 in R0. change (len (lit ". ")) with 2 in R1.
  change (len (lit "? ")) with 2 in R2. change (len (lit "! ")) with 2 in R3.
  destruct (chunk_end_of_cases text current_pos chunk_size) as [H|[H|H]];
    fold w in H; unfold w in *; lia.
Qed.

Lemma chunk_loop_bounded (fuel : nat) (text : str) (chunk_size overlap : Z) :
  0 <= chunk_size ->
  forall (current_pos : Z) (chunks result : list str),
    0 <= current_pos ->
    Forall (fun c => len c <= chunk_size) chunks ->
    chunk_loop fuel text chunk_size overlap current_pos chunks = Some result ->
    Forall (fun c => len c <= chunk_size) result.
Proof.
  intros Hs. induction fuel as [|fuel IH]; intros pos chunks result Hp Hc Hr.
  - simpl in Hr. destruct (pos <? len text); [discriminate|]. congruence.
  - simpl in Hr. destruct (pos <? len text) eqn:E; [|congruence].
    apply Z.ltb_lt in E.
    set (chunk := strip (slice text pos (chunk_end_of text pos chunk_size))) in Hr.
    assert (Hchunk : len chunk <= chunk_size).
    { pose proof (chunk_end_of_le text pos chunk_size Hp Hs) as He.
      pose proof (strip_length (slice text pos (chunk_end_of text pos chunk_size))) as Hst.
      fold chunk in Hst.
      destruct (slice_length_le text pos (chunk_end_of text pos chunk_size))
        as [Hl|Hl]; [lia | lia | |].
      - unfold len in *. lia.
      - rewrite Hl in Hst. unfold len. simpl in Hst. lia. }
    assert (Hc' : Forall (fun c => len c <= chunk_size)
                    match chunk with [] => chunks | _ :: _ => chunks ++ [chunk] end).
    { destruct chunk eqn:Ec; [assumption|]. rewrite <- Ec in *.
      apply Forall_app. split; [assumption|]. now constructor. }
    destruct (len text <=? next_pos pos chunk_size overlap).
    + injection Hr as <-. exact Hc'.
    + eapply IH; [| exact Hc' | exact Hr]. rewrite next_pos_advance. lia.
Qed.

(** C6: with a window of [chunk_size] characters, every chunk that
    [split_text] produces has at most [chunk_size] characters (no slack is
    needed), and the window starting at [current_pos] ends two characters
    past the last paragraph break, or else past the rightmost of the three
    sentence ends, only when that boundary lies beyond
    [current_pos + chunk_size / 2]; in every other case it is cut at the
    window length. *)
Theorem prose_chunks_bounded (text : str) (chunk_size overlap current_pos : Z)
    (chunks : list str) :
  0 <= chunk_size ->
  0 <= current_pos ->
  split_text text chunk_size overlap = Some chunks ->
  let window_end := Z.min (current_pos + chunk_size) (len text) in
  let paragraph_end := rfind text (nl ++ nl) current_pos window_end in
  let sentence_end :=
    Z.max (rfind text (lit ". ") current_pos window_end)
          (Z.max (rfind text (lit "? ") current_pos window_end)
                 (rfind text (lit "! ") current_pos window_end)) in
  let chunk_end := chunk_end_of text current_pos chunk_size in
  Forall (fun c => len c <= chunk_size) chunks
  /\ chunk_end - current_pos <= chunk_size
  /\ ((chunk_end = paragraph_end + 2 /\ paragraph_end <> -1
       /\ 2 * current_pos + chunk_size < 2 * paragraph_end)
      \/ (chunk_end = sentence_end + 2 /\ sentence_end <> -1
          /\ 2 * current_pos + chunk_size < 2 * sentence_end)
      \/ chunk_end = window_end).
Proof.
  intros Hs Hp Hr. cbv zeta. split; [|split].
  - unfold split_text in Hr.
    eapply chunk_loop_bounded; [exact Hs | | constructor | exact Hr]. lia.
  - pose proof (chunk_end_of_le text current_pos chunk_size Hp Hs). lia.
  - apply chunk_end_of_cases.
Qed.

Lemma prose_chunks_bounded_witness :
  Forall (fun c => len c <= 20)
    [lit "Hello world."; lit "is is a test!"; lit "nother sentence here";
     lit "here? Yes."]
  /\ chunk_end_of Samples.prose 0 20 = 13.
Proof.
  pose proof (prose_chunks_bounded Samples.prose 20 5 0
                [lit "Hello world."; lit "is is a test!"; lit "nother sentence here";
                 lit "here? Yes."]
                ltac:(lia) ltac:(lia) ltac:(vm_compute; reflexivity)) as H.
  cbv zeta in H. destruct H as (H1 & _ & _). split; [exact H1|].
  vm_compute. reflexivity.
Defined.

(* ================================================================== *)
(** * Row groups of [dataframe_to_chunks] (C8) *)
(* ================================================================== *)

Lemma slice_length {A} (l : list A) (a b : Z) :
  0 <= a <= b -> b <= len l -> len (slice l a b) = b - a.
Proof.
  intros Ha Hb. unfold slice, norm_index.
  assert (Ea : (a <? 0) = false) by lia. assert (Eb : (b <? 0) = false) by lia.
  rewrite Ea, Eb. unfold len in *. rewrite length_firstn, length_skipn. lia.
Qed.

Lemma slice_skipn {A} (l : list A) (a b : Z) :
  0 <= a <= b -> b <= len l ->
  slice l a b ++ skipn (Z.to_nat b) l = skipn (Z.to_nat a) l.
Proof.
  intros Ha Hb. unfold slice, norm_index.
  assert (Ea : (a <? 0) = false) by lia. assert (Eb : (b <? 0) = false) by lia.
  rewrite Ea, Eb. unfold len in *.
  replace (Z.min b (Z.of_nat (length l))) with b by lia.
  replace (Z.min a (Z.of_nat (length l))) with a by lia.
  replace (Z.to_nat b) with (Z.to_nat (b - a) + Z.to_nat a)%nat by lia.
  rewrite <- skipn_skipn. apply firstn_skipn.
Qed.

Lemma range_up_In (fuel : nat) (step stop : Z) :
  forall (i j : Z),
    In j (range_up fuel i stop step) ->
    j < stop /\ exists k, 0 <= k /\ j = i + k * step.
Proof.
  induction fuel as [|fuel IH]; intros i j Hj; simpl in Hj; [contradiction|].
  destruct (i <? stop) eqn:E; [|contradiction]. apply Z.ltb_lt in E.
  destruct Hj as [<-|Hj].
  - split; [assumption|]. exists 0. lia.
  - apply IH in Hj as [Hlt (k & Hk & ->)]. split; [assumption|].
    exists (k + 1). lia.
Qed.

Lemma range_up_complete (fuel : nat) (step stop : Z) :
  1 <= step ->
  forall (i k : Z),
    (Z.to_nat (stop - i) <= fuel)%nat -> 0 <= k -> i + k * step < stop ->
    In (i + k * step) (range_up fuel i stop step).
Proof.
  intros Hstep. induction fuel as [|fuel IH]; intros i k Hfuel Hk Hlt.
  - exfalso. nia.
  - simpl. assert (E : (i <? stop) = true) by (apply Z.ltb_lt; nia). rewrite E.
    destruct (Z.eq_dec k 0) as [->|Hk0].
    + left. lia.
    + right. replace (i + k * step) with ((i + step) + (k - 1) * step) by lia.
      apply IH; lia.
Qed.

Lemma range_up_sorted (fuel : nat) (step stop : Z) :
  1 <= step ->
  forall i, StronglySorted Z.lt (range_up fuel i stop step).
Proof.
  intros Hstep. induction fuel as [|fuel IH]; intros i; simpl; [constructor|].
  destruct (i <? stop); [|constructor].
  constructor; [apply IH|]. apply Forall_forall. intros j Hj.
  apply range_up_In in Hj as [_ (k & Hk & ->)]. nia.
Qed.

Lemma range_up_concat {A} (l : list A) (fuel : nat) (step : Z) :
  1 <= step ->
  forall i,
    0 <= i -> (Z.to_nat (len l - i) <= fuel)%nat ->
    concat (map (fun j => slice l j (Z.min (j + step) (len l)))
                (range_up fuel i (len l) step))
    = skipn (Z.to_nat i) l.
Proof.
  intros Hstep. induction fuel as [|fuel IH]; intros i Hi Hfuel.
  - simpl. symmetry. apply skipn_all2. unfold len in *. lia.
  - simpl. destruct (i <? len l) eqn:E.
    + apply Z.ltb_lt in E. simpl. rewrite IH by lia.
      destruct (Z_le_gt_dec (i + step) (len l)) as [H|H].
      * replace (Z.min (i + step) (len l)) with (i + step) by lia.
        apply slice_skipn; lia.
      * replace (Z.min (i + step) (len l)) with (len l) by lia.
        rewrite (skipn_all2 l (n := Z.to_nat (i + step))) by (unfold len in *; lia).
        rewrite <- (slice_skipn l i (len l)) by lia.
        rewrite (skipn_all2 l (n := Z.to_nat (len l))) by (unfold len; lia).
        reflexivity.
    + apply Z.ltb_ge in E. simpl. symmetry. apply skipn_all2. unfold len in *. lia.
Qed.

Lemma fillna_len (df : DataFrame) : len (rows (fillna df)) = len (rows df).
Proof. unfold fillna, len. simpl. now rewrite length_map. Qed.

(** C8: for [max_rows_per_chunk >= 1] the result is the schema chunk
    followed by one chunk per row group, in the order of the groups. The
    schema chunk is the text of the schema lines: the sheet line when a
    sheet name is given, the row count, and one line per column with its
    type. The chunk of the group that starts at row [i] is its label
    "Data Rows i+1 to end" (with the sheet name when one is given) followed
    by the delimited text of the rows [i] to [end - 1] of the table whose
    missing cells are filled with the empty text, where [end] is
    [min (i + max_rows_per_chunk) total_rows]. The groups start at
    increasing rows, each holds [end - i] rows, between 1 and
    [max_rows_per_chunk], their rows put end to end are the rows of the
    filled table in order, and every row index lies in exactly one group. *)
Theorem dataframe_to_chunks_partition (env : Env) (df : DataFrame)
    (max_rows_per_chunk : Z) (sheet_name : option str) :
  1 <= max_rows_per_chunk ->
  let total_rows := len (rows df) in
  let filled :=
    mkDataFrame (columns df)
      (map (map (fun c => match c with NaN => Value [] | Value t => Value t end))
           (rows df)) in
  let end_idx := fun i => Z.min (i + max_rows_per_chunk) total_rows in
  let group := fun i =>
    mkDataFrame (columns df) (slice (rows filled) i (end_idx i)) in
  let schema_text :=
    (lit "Schema Information:" ++ nl)
    ++ match sheet_name with
       | Some (c :: name) => lit "Sheet: " ++ (c :: name) ++ nl
       | _ => []
       end
    ++ (lit "Total Rows: " ++ str_of_int total_rows ++ nl)
    ++ (lit "Columns:" ++ nl)
    ++ flat_map
         (fun col =>
            lit "- " ++ col ++ lit " (" ++ dtype_str env filled col ++ lit ")" ++ nl)
         (columns df) in
  let group_text := fun i =>
    (lit "Data Rows " ++ str_of_int (i + 1) ++ lit " to " ++ str_of_int (end_idx i))
    ++ match sheet_name with
       | Some (c :: name) => lit " (Sheet: " ++ (c :: name) ++ lit ")"
       | _ => []
       end
    ++ (lit ":" ++ nl ++ to_csv env (group i)) in
  exists starts : list Z,
    dataframe_to_chunks env df max_rows_per_chunk sheet_name
    = Return (schema_text :: map group_text starts)
    /\ StronglySorted Z.lt starts
    /\ Forall (fun i =>
                 0 <= i
                 /\ len (rows (group i)) = end_idx i - i
                 /\ 1 <= len (rows (group i)) <= max_rows_per_chunk) starts
    /\ concat (map (fun i => rows (group i)) starts) = rows filled
    /\ (forall r, 0 <= r < total_rows ->
          exists i, In i starts
                    /\ i <= r < end_idx i
                    /\ forall i', In i' starts -> i' <= r < end_idx i' -> i' = i).
Proof.
  intros Hmax. cbv zeta.
  set (total := len (rows df)).
  change (mkDataFrame (columns df)
            (map (map (fun c => match c with NaN => Value [] | Value t => Value t end))
                 (rows df))) with (fillna df).
  set (filled := fillna df).
  exists (range_up (Z.to_nat (total - 0)) 0 total max_rows_per_chunk).
  assert (Htot : len (rows filled) = total) by apply fillna_len.
  split; [|split; [|split; [|split]]].
  - unfold dataframe_to_chunks, range. fold total. fold filled.
    assert (E0 : (max_rows_per_chunk =? 0) = false) by lia.
    assert (E1 : (0 <? max_rows_per_chunk) = true) by lia.
    rewrite E0, E1. cbn [bind].
    destruct sheet_name as [[|c name]|]; reflexivity.
  - now apply range_up_sorted.
  - apply Forall_forall. intros i Hi.
    apply range_up_In in Hi as [Hlt (k & Hk & Ei)].
    assert (Hi0 : 0 <= i) by nia.
    cbn [rows]. rewrite slice_length; rewrite ?Htot; lia.
  - cbn [rows]. rewrite <- Htot.
    rewrite range_up_concat by lia. reflexivity.
  - intros r Hr. exists (0 + (r / max_rows_per_chunk) * max_rows_per_chunk).
    pose proof (Z.div_mod r max_rows_per_chunk ltac:(lia)) as Hdm.
    pose proof (Z.mod_pos_bound r max_rows_per_chunk ltac:(lia)) as Hmod.
    assert (Hq : 0 <= r / max_rows_per_chunk) by (apply Z.div_pos; lia).
    split; [|split].
    + apply range_up_complete; nia.
    + nia.
    + intros i' Hi' Hr'. apply range_up_In in Hi' as [_ (k & Hk & ->)].
      assert (Hlo : k * max_rows_per_chunk <= r) by lia.
      assert (Hhi : r < k * max_rows_per_chunk + max_rows_per_chunk) by lia.
      set (q := r / max_rows_per_chunk) in *.
      set (m := r mod max_rows_per_chunk) in *.
      assert (k = q); [|subst k; reflexivity].
      destruct (Z.lt_trichotomy k q) as [H|[H|H]]; [exfalso | assumption | exfalso].
      * assert (k + 1 <= q) by lia.
        assert ((k + 1) * max_rows_per_chunk <= q * max_rows_per_chunk) by nia. lia.
      * assert (q + 1 <= k) by lia.
        assert ((q + 1) * max_rows_per_chunk <= k * max_rows_per_chunk) by nia. lia.
Qed.

Lemma dataframe_to_chunks_partition_witness :
  exists starts : list Z,
    dataframe_to_chunks Samples.csv_files Samples.revenue_table 2 None
    = Return
        ((lit "Schema Information:" ++ nl
          ++ lit "Total Rows: 3" ++ nl
          ++ lit "Columns:" ++ nl
          ++ lit "- revenue (int64)" ++ nl
          ++ lit "- year (int64)" ++ nl)
         :: map (fun i =>
                   lit "Data Rows " ++ str_of_int (i + 1) ++ lit " to "
                   ++ str_of_int (Z.min (i + 2) 3) ++ lit ":" ++ nl
                   ++ Samples.plain_csv
                        (mkDataFrame [lit "revenue"; lit "year"]
                           (slice (rows Samples.revenue_table) i (Z.min (i + 2) 3))))
                starts)
    /\ StronglySorted Z.lt starts
    /\ concat (map (fun i => slice (rows Samples.revenue_table) i (Z.min (i + 2) 3))
                   starts)
       = rows Samples.revenue_table.
Proof.
  pose proof (dataframe_to_chunks_partition Samples.csv_files Samples.revenue_table
                2 None ltac:(lia)) as H.
  cbv zeta in H. destruct H as (starts & H1 & H2 & _ & H4 & _).
  exists starts. split; [|split].
  - rewrite H1. f_equal. f_equal. apply map_ext. intros i.
    rewrite <- !app_assoc. reflexivity.
  - exact H2.
  - exact H4.
Defined.

(* ================================================================== *)
(** * The order of binary64 floats *)
(* ================================================================== *)

Lemma SFleb_trans (x y z : spec_float) :
  SFleb x y = true -> SFleb y z = true -> SFleb x z = true.
Proof. sf_order. Qed.

Lemma SFltb_false_leb (x y : spec_float) :
  SFeqb x x = true -> SFeqb y y = true -> SFltb x y = false -> SFleb y x = true.
Proof. sf_order. Qed.

Lemma SFltb_leb (x y : spec_float) : SFltb x y = true -> SFleb x y = true.
Proof. sf_order. Qed.

Lemma SFltb_not_eqb (x y : spec_float) : SFltb x y = true -> SFeqb y x = false.
Proof. sf_order. Qed.

Lemma float_leb_trans (a b c : float) :
  (a <=? b)%float = true -> (b <=? c)%float = true -> (a <=? c)%float = true.
Proof. rewrite !leb_spec. apply SFleb_trans. Qed.

Lemma float_ltb_false_leb (a b : float) :
  is_nan a = false -> is_nan b = false ->
  (a <? b)%float = false -> (b <=? a)%float = true.
Proof.
  unfold is_nan. rewrite !negb_false_iff, ltb_spec, leb_spec, !eqb_spec.
  apply SFltb_false_leb.
Qed.

Lemma float_ltb_leb (a b : float) :
  (a <? b)%float = true -> (a <=? b)%float = true.
Proof. rewrite ltb_spec, leb_spec. apply SFltb_leb. Qed.

Lemma float_ltb_not_eqb (a b : float) :
  (a <? b)%float = true -> (b =? a)%float = false.
Proof. rewrite ltb_spec, eqb_spec. apply SFltb_not_eqb. Qed.

(* ================================================================== *)
(** * Facts about the ranking of [retrieve_context] *)
(* ================================================================== *)

Lemma enumerate_from_range {A} (l : list A) :
  forall (i : Z) (p : Z * A),
    In p (enumerate_from i l) -> i <= fst p < i + len l.
Proof.
  induction l as [|x l IH]; intros i p Hp; simpl in Hp; [contradiction|].
  unfold len in *. simpl length. destruct Hp as [<-|Hp].
  - simpl. lia.
  - apply IH in Hp. lia.
Qed.

Lemma enumerate_from_sorted {A} (l : list A) :
  forall i, StronglySorted Z.lt (map fst (enumerate_from i l)).
Proof.
  induction l as [|x l IH]; intros i; simpl; constructor; [apply IH|].
  apply Forall_forall. intros j Hj. apply in_map_iff in Hj as (p & <- & Hp).
  apply enumerate_from_range in Hp. lia.
Qed.

Lemma scores_keep_indices (q : vec) (l : list (Z * vec)) :
  forall sims,
    traverse (fun row => similarity <- cosine_similarity q (snd row) ;;
                         Return (fst row, similarity)) l = Return sims ->
    map fst sims = map fst l.
Proof.
  induction l as [|row l IH]; intros sims H; simpl in H.
  - injection H as <-. reflexivity.
  - destruct (cosine_similarity q (snd row)) as [s|e]; simpl in H; [|discriminate].
    destruct (traverse _ l) as [rest|e]; simpl in H; [|discriminate].
    injection H as <-. simpl. f_equal. now apply IH.
Qed.

Lemma similarities_indices (q : vec) (embeddings : list vec) (sims : list scored) :
  similarities q embeddings = Return sims ->
  map fst sims = map fst (enumerate embeddings).
Proof. apply scores_keep_indices. Qed.

Lemma insert_desc_In (x p : scored) (l : list scored) :
  In p (insert_desc x l) <-> p = x \/ In p l.
Proof.
  induction l as [|y l IH]; simpl.
  - intuition congruence.
  - destruct (snd x <? snd y)%float; simpl; rewrite ?IH; intuition congruence.
Qed.

Lemma sort_desc_In (p : scored) (l : list scored) :
  In p (sort_desc l) <-> In p l.
Proof.
  induction l as [|x l IH]; simpl; [tauto|].
  rewrite insert_desc_In, IH. intuition congruence.
Qed.

Lemma sort_desc_Forall (P : scored -> Prop) (l : list scored) :
  Forall P l -> Forall P (sort_desc l).
Proof.
  rewrite !Forall_forall. intros H p Hp. apply H. now apply sort_desc_In.
Qed.

Lemma insert_desc_ranked (x : scored) (l : list scored) :
  is_nan (snd x) = false ->
  Forall (fun p => is_nan (snd p) = false) l ->
  Forall (fun q => fst x < fst q) l ->
  StronglySorted ranked_before l ->
  StronglySorted ranked_before (insert_desc x l).
Proof.
  intros Hx. induction l as [|y l IH]; intros Hnan Hidx Hsorted; simpl.
  - constructor; constructor.
  - inversion Hnan as [|? ? Hy Hnan']; subst.
    inversion Hidx as [|? ? Hxy Hidx']; subst.
    apply StronglySorted_inv in Hsorted as [Hsorted' Hbefore].
    destruct (snd x <? snd y)%float eqn:E.
    + constructor; [now apply IH|].
      apply Forall_forall. intros p Hp. apply insert_desc_In in Hp as [->|Hp].
      * split; [now apply float_ltb_leb|].
        intros Heq. apply float_ltb_not_eqb in E. congruence.
      * rewrite Forall_forall in Hbefore. now apply Hbefore.
    + assert (Hle : (snd y <=? snd x)%float = true)
        by now apply float_ltb_false_leb.
      constructor; [now constructor|]. constructor.
      * split; [assumption | intros _; assumption].
      * rewrite Forall_forall in *. intros p Hp. split.
        -- apply float_leb_trans with (snd y); [|assumption].
           now apply Hbefore.
        -- intros _. now apply Hidx'.
Qed.

Lemma sort_desc_ranked (l : list scored) :
  Forall (fun p => is_nan (snd p) = false) l ->
  StronglySorted Z.lt (map fst l) ->
  StronglySorted ranked_before (sort_desc l).
Proof.
  induction l as [|x l IH]; intros Hnan Hidx; simpl; [constructor|].
  inversion Hnan as [|? ? Hx Hnan']; subst.
  simpl in Hidx. apply StronglySorted_inv in Hidx as [Hidx' Hlt].
  apply insert_desc_ranked.
  - assumption.
  - now apply sort_desc_Forall.
  - apply sort_desc_Forall. rewrite Forall_forall in *. intros p Hp.
    apply Hlt. now apply in_map.
  - now apply IH.
Qed.

Lemma StronglySorted_filter {A} (R : A -> A -> Prop) (f : A -> bool) (l : list A) :
  StronglySorted R l -> StronglySorted R (filter f l).
Proof.
  induction 1 as [|x l Hs IH Hx]; simpl; [constructor|].
  destruct (f x); [|assumption]. constructor; [assumption|].
  rewrite Forall_forall in *. intros y Hy. apply Hx.
  now apply filter_In in Hy.
Qed.

Lemma StronglySorted_firstn {A} (R : A -> A -> Prop) (n : nat) (l : list A) :
  StronglySorted R l -> StronglySorted R (firstn n l).
Proof.
  intros H. revert n. induction H as [|x l Hs IH Hx]; intros n.
  - rewrite firstn_nil. constructor.
  - destruct n as [|n]; simpl; constructor; [apply IH|].
    rewrite Forall_forall in *. intros y Hy. apply Hx.
    rewrite <- (firstn_skipn n l). apply in_or_app. now left.
Qed.

Lemma slice_to_firstn {A} (l : list A) (k : Z) :
  slice_to l k = firstn (Z.to_nat (norm_index (len l) k)) l.
Proof.
  unfold slice_to, slice.
  assert (E : norm_index (len l) 0 = 0)
    by (unfold norm_index; pose proof (len_nonneg l); simpl; lia).
  rewrite E. simpl skipn. f_equal. lia.
Qed.

Lemma slice_to_In {A} (l : list A) (k : Z) (x : A) :
  In x (slice_to l k) -> In x l.
Proof.
  rewrite slice_to_firstn. intros H.
  rewrite <- (firstn_skipn (Z.to_nat (norm_index (len l) k)) l).
  apply in_or_app. now left.
Qed.

Lemma slice_to_len {A} (l : list A) (k : Z) :
  len (slice_to l k) = norm_index (len l) k.
Proof.
  rewrite slice_to_firstn. pose proof (norm_index_range (len l) k (len_nonneg l)).
  unfold len in *. rewrite length_firstn. lia.
Qed.

Lemma filter_length_mono {A} (f g : A -> bool) (l : list A) :
  (forall x, f x = true -> g x = true) ->
  (length (filter f l) <= length (filter g l))%nat.
Proof.
  intros H. induction l as [|x l IH]; simpl; [lia|].
  destruct (f x) eqn:E.
  - rewrite (H x E). simpl. lia.
  - destruct (g x); simpl; lia.
Qed.

Lemma filter_none {A} (f : A -> bool) (l : list A) :
  Forall (fun x => f x = false) l -> filter f l = [].
Proof.
  induction 1 as [|x l Hx _ IH]; simpl; [reflexivity|]. now rewrite Hx.
Qed.

Lemma getitem_all (documents : list str) (indices : list Z) :
  Forall (fun i => 0 <= i < len documents) indices ->
  exists contexts,
    traverse (getitem documents) indices = Return contexts
    /\ length contexts = length indices.
Proof.
  induction 1 as [|i indices Hi _ (contexts & IH & Hlen)]; simpl.
  - now exists [].
  - unfold getitem at 1.
    assert (E1 : (i <? 0) = false) by lia. rewrite E1.
    assert (E2 : ((0 <=? i) && (i <? len documents)) = true)
      by (apply andb_true_iff; split; lia).
    rewrite E2. simpl. rewrite IH. simpl. eexists. split; [reflexivity|].
    simpl. now rewrite Hlen.
Qed.

(** The pairs that are kept are pairs of the score list, so their indices
    are row numbers of the embedding array. *)
Lemma top_similarities_rows (q : vec) (embeddings : list vec) (top_k : Z)
    (threshold : float) (sims top : list scored) :
  similarities q embeddings = Return sims ->
  top_similarities q embeddings top_k threshold = Return top ->
  Forall (fun p => In p sims /\ 0 <= fst p < len embeddings) top.
Proof.
  intros Hs Ht. unfold top_similarities in Ht. rewrite Hs in Ht. cbn [bind] in Ht.
  injection Ht as <-. apply Forall_forall. intros p Hp.
  apply slice_to_In, filter_In in Hp as [Hp _].
  apply (proj1 (sort_desc_In _ _)) in Hp.
  split; [assumption|].
  assert (Hi : In (fst p) (map fst (enumerate embeddings))).
  { rewrite <- (similarities_indices _ _ _ Hs). now apply in_map. }
  apply in_map_iff in Hi as (r & Hr & Hin). unfold enumerate in Hin.
  apply enumerate_from_range in Hin. lia.
Qed.

Lemma top_similarities_unfold (q : vec) (embeddings : list vec) (top_k : Z)
    (threshold : float) (sims : list scored) :
  similarities q embeddings = Return sims ->
  top_similarities q embeddings top_k threshold
  = Return (slice_to (filter (fun p => (threshold <=? snd p)%float) (sort_desc sims))
                     top_k).
Proof. intros Hs. unfold top_similarities. now rewrite Hs. Qed.

(** When every row has its document and the scores are defined, the call
    returns the documents of the kept pairs. *)
Lemma retrieve_context_returns (embed_query : str -> vec) (query : str)
    (documents : list str) (rows : list vec) (top_k : Z) (threshold : float)
    (sims : list scored) :
  (length rows <= length documents)%nat ->
  similarities (embed_query query) rows = Return sims ->
  exists top contexts,
    top_similarities (embed_query query) rows top_k threshold = Return top
    /\ retrieve_context embed_query query documents (Some rows) top_k threshold
       = Return (contexts, map fst top)
    /\ length contexts = length top.
Proof.
  intros Hlen Hs.
  pose proof (top_similarities_unfold _ _ top_k threshold _ Hs) as Ht.
  set (top := slice_to _ top_k) in Ht.
  pose proof (top_similarities_rows _ _ _ _ _ _ Hs Ht) as Hrows.
  destruct (getitem_all documents (map fst top)) as (contexts & Hc & Hl).
  { apply Forall_forall. intros i Hi. apply in_map_iff in Hi as (p & <- & Hp).
    rewrite Forall_forall in Hrows. apply Hrows in Hp as [_ Hp].
    unfold len in *. lia. }
  rewrite length_map in Hl.
  destruct documents as [|d documents].
  - exists top, []. split; [assumption|].
    assert (rows = []) by (destruct rows; [reflexivity | simpl in Hlen; lia]).
    subst rows. assert (Etop : top = []).
    { destruct top as [|p top']; [reflexivity|].
      inversion Hrows as [|? ? [_ Hp] _]; subst. unfold len in Hp. simpl in Hp. lia. }
    rewrite Etop. split; reflexivity.
  - exists top, contexts. split; [assumption|]. split; [|assumption].
    unfold retrieve_context. rewrite Ht. cbn [bind]. rewrite Hc. reflexivity.
Qed.

(* ================================================================== *)
(** * The ranking of [retrieve_context] (C2) *)
(* ================================================================== *)

(** Without a bound on [top_k] and with any embedding array the ranking
    fails. With [top_k = -1] the slice [[:top_k]] drops the last kept pair
    only, and two pairs are returned. With a NaN in the second row the score
    of that row is NaN, no comparison with it holds, the sort leaves the
    three pairs where they are, and the two pairs that pass the threshold
    are returned with the lower score first. *)
Lemma retrieve_context_not_ranked :
  (retrieve_context (Samples.embed_const Samples.unit_x) (lit "revenue")
     Samples.four_docs (Some Samples.four_rows) (-1) 0.25
   = Return ([lit "one"; lit "four"], [0; 3])
   /\ ~ len [0; 3] <= -1)
  /\ (similarities Samples.unit_x Samples.nan_rows
      = Return [(0, 0x1.6a09e667f3bccp-1%float); (1, nan); (2, 1%float)]
      /\ top_similarities Samples.unit_x Samples.nan_rows 3 0.25
         = Return [(0, 0x1.6a09e667f3bccp-1%float); (2, 1%float)]
      /\ retrieve_context (Samples.embed_const Samples.unit_x) (lit "revenue")
           Samples.four_docs (Some Samples.nan_rows) 3 0.25
         = Return ([lit "one"; lit "three"], [0; 2])
      /\ (0x1.6a09e667f3bccp-1 <? 1)%float = true
      /\ ~ StronglySorted ranked_before
            [(0, 0x1.6a09e667f3bccp-1%float); (2, 1%float)]).
Proof.
  split; [split|split; [|split; [|split; [|split]]]].
  - vm_compute. reflexivity.
  - unfold len. simpl. lia.
  - vm_compute. reflexivity.
  - vm_compute. reflexivity.
  - vm_compute. reflexivity.
  - vm_compute. reflexivity.
  - intros H. inversion H as [|? ? _ Hall]; subst.
    inversion Hall as [|? ? [Hle _] _]; subst.
    vm_compute in Hle. discriminate.
Qed.

(** C2 (as the code has it): when every embedding row has its document, the
    scores are defined and none of them is NaN, and [top_k] is not negative,
    [retrieve_context] returns the documents and indices of the pairs
    [top_similarities]; there are at most [top_k] of them, each is a (row
    index, score) pair with a score at or above the threshold, the scores
    descend, and pairs with equal scores stand in the order of their chunk
    indices. *)
Theorem retrieve_context_ranked (embed_query : str -> vec) (query : str)
    (documents : list str) (rows : list vec) (top_k : Z) (threshold : float)
    (sims : list scored) :
  0 <= top_k ->
  (length rows <= length documents)%nat ->
  similarities (embed_query query) rows = Return sims ->
  Forall (fun p => is_nan (snd p) = false) sims ->
  exists top contexts,
    top_similarities (embed_query query) rows top_k threshold = Return top
    /\ retrieve_context embed_query query documents (Some rows) top_k threshold
       = Return (contexts, map fst top)
    /\ length contexts = length top
    /\ len top <= top_k
    /\ Forall (fun p => In p sims /\ (threshold <=? snd p)%float = true) top
    /\ StronglySorted ranked_before top.
Proof.
  intros Hk Hlen Hs Hnan.
  destruct (retrieve_context_returns embed_query query documents rows top_k
              threshold sims Hlen Hs) as (top & contexts & Ht & Hr & Hl).
  exists top, contexts. repeat (split; [assumption|]).
  rewrite (top_similarities_unfold _ _ top_k threshold _ Hs) in Ht.
  injection Ht as <-. split; [|split].
  - rewrite slice_to_len. unfold norm_index.
    assert (E : (top_k <? 0) = false) by lia. rewrite E. lia.
  - apply Forall_forall. intros p Hp.
    apply slice_to_In, filter_In in Hp as [Hp Hthr].
    apply (proj1 (sort_desc_In _ _)) in Hp. now split.
  - rewrite slice_to_firstn. apply StronglySorted_firstn, StronglySorted_filter.
    apply sort_desc_ranked; [assumption|].
    rewrite (similarities_indices _ _ _ Hs). apply enumerate_from_sorted.
Qed.

Lemma retrieve_context_ranked_witness :
  exists top contexts,
    top_similarities Samples.unit_x Samples.four_rows 3 0.25 = Return top
    /\ retrieve_context (Samples.embed_const Samples.unit_x) (lit "revenue")
         Samples.four_docs (Some Samples.four_rows) 3 0.25
       = Return (contexts, map fst top)
    /\ length contexts = length top
    /\ len top <= 3
    /\ Forall (fun p => In p Samples.four_scores
                        /\ (0.25 <=? snd p)%float = true) top
    /\ StronglySorted ranked_before top.
Proof.
  apply (retrieve_context_ranked (Samples.embed_const Samples.unit_x) (lit "revenue")
           Samples.four_docs Samples.four_rows 3 0.25%float
           Samples.four_scores).
  - lia.
  - simpl. lia.
  - vm_compute. reflexivity.
  - repeat constructor.
Defined.

(* ================================================================== *)
(** * Raising the threshold (C5) *)
(* ================================================================== *)

Lemma norm_index_mono (n m k : Z) :
  0 <= n <= m -> norm_index n k <= norm_index m k.
Proof. unfold norm_index. destruct (k <? 0); lia. Qed.

(** C5: for one query, document list and embedding array (every row with
    its document, the scores defined) and thresholds [t1 <= t2],
    [retrieve_context] returns with both thresholds, and with [t2] it
    returns no more contexts and no more indices than with [t1]. *)
Theorem retrieve_context_threshold_monotone (embed_query : str -> vec)
    (query : str) (documents : list str) (embeddings : option (list vec))
    (top_k : Z) (t1 t2 : float) :
  (t1 <=? t2)%float = true ->
  (forall rows, embeddings = Some rows ->
     (length rows <= length documents)%nat
     /\ exists sims, similarities (embed_query query) rows = Return sims) ->
  exists contexts1 indices1 contexts2 indices2,
    retrieve_context embed_query query documents embeddings top_k t1
      = Return (contexts1, indices1)
    /\ retrieve_context embed_query query documents embeddings top_k t2
      = Return (contexts2, indices2)
    /\ (length contexts2 <= length contexts1)%nat
    /\ (length indices2 <= length indices1)%nat.
Proof.
  intros Ht Hwf. destruct embeddings as [rows|].
  - destruct (Hwf rows eq_refl) as (Hlen & sims & Hs).
    destruct (retrieve_context_returns embed_query query documents rows top_k
                t1 sims Hlen Hs) as (top1 & c1 & Ht1 & Hr1 & Hl1).
    destruct (retrieve_context_returns embed_query query documents rows top_k
                t2 sims Hlen Hs) as (top2 & c2 & Ht2 & Hr2 & Hl2).
    exists c1, (map fst top1), c2, (map fst top2).
    split; [assumption|]. split; [assumption|].
    rewrite !length_map, Hl1, Hl2.
    rewrite (top_similarities_unfold _ _ top_k t1 _ Hs) in Ht1.
    rewrite (top_similarities_unfold _ _ top_k t2 _ Hs) in Ht2.
    injection Ht1 as <-. injection Ht2 as <-.
    assert (Hmono :
      len (slice_to (filter (fun p => (t2 <=? snd p)%float) (sort_desc sims)) top_k)
      <= len (slice_to (filter (fun p => (t1 <=? snd p)%float) (sort_desc sims)) top_k)).
    { rewrite !slice_to_len. apply norm_index_mono. split; [apply len_nonneg|].
      unfold len. apply inj_le. apply filter_length_mono.
      intros p Hp. now apply float_leb_trans with t2. }
    unfold len in Hmono. split; apply Nat2Z.inj_le; exact Hmono.
  - exists [], [], [], []. destruct documents; repeat split; reflexivity || lia.
Qed.

Lemma retrieve_context_threshold_monotone_witness :
  exists contexts1 indices1 contexts2 indices2,
    retrieve_context (Samples.embed_const Samples.unit_x) (lit "revenue")
      Samples.four_docs (Some Samples.four_rows) 3 0.25
      = Return (contexts1, indices1)
    /\ retrieve_context (Samples.embed_const Samples.unit_x) (lit "revenue")
      Samples.four_docs (Some Samples.four_rows) 3 0.75
      = Return (contexts2, indices2)
    /\ (length contexts2 <= length contexts1)%nat
    /\ (length indices2 <= length indices1)%nat.
Proof.
  apply (retrieve_context_threshold_monotone (Samples.embed_const Samples.unit_x)
           (lit "revenue") Samples.four_docs (Some Samples.four_rows) 3
           0.25%float 0.75%float).
  - vm_compute. reflexivity.
  - intros rows E. injection E as <-. split.
    + simpl. lia.
    + eexists. vm_compute. reflexivity.
Defined.

(* ================================================================== *)
(** * Empty results of [retrieve_context] (C9) *)
(* ================================================================== *)

(** C9: [retrieve_context] returns the pair of two empty lists, and raises
    nothing, when the document list is empty, when the embedding array is
    [None], and when the scores are defined and none of them reaches the
    threshold. *)
Theorem retrieve_context_empty (embed_query : str -> vec) (query : str)
    (documents : list str) (embeddings : option (list vec))
    (top_k : Z) (similarity_threshold : float) :
  (documents = []
   \/ embeddings = None
   \/ exists rows sims,
        embeddings = Some rows
        /\ similarities (embed_query query) rows = Return sims
        /\ Forall (fun p => (similarity_threshold <=? snd p)%float = false) sims) ->
  retrieve_context embed_query query documents embeddings top_k similarity_threshold
  = Return ([], []).
Proof.
  intros [->|[->|(rows & sims & -> & Hs & Hlow)]].
  - reflexivity.
  - now destruct documents.
  - destruct documents as [|d documents]; [reflexivity|].
    unfold retrieve_context.
    rewrite (top_similarities_unfold _ _ top_k similarity_threshold _ Hs).
    rewrite filter_none by now apply sort_desc_Forall.
    unfold slice_to. rewrite slice_nil. reflexivity.
Qed.

Lemma retrieve_context_empty_witness :
  retrieve_context (Samples.embed_const Samples.unit_x) (lit "revenue")
    Samples.four_docs (Some Samples.four_rows) 3 2
  = Return ([], []).
Proof.
  apply (retrieve_context_empty (Samples.embed_const Samples.unit_x) (lit "revenue")
           Samples.four_docs (Some Samples.four_rows) 3 2%float).
  right; right.
  exists Samples.four_rows, Samples.four_scores.
  split; [reflexivity|]. split; [vm_compute; reflexivity|].
  repeat constructor.
Defined.

(* ================================================================== *)
(** * Cosine similarity (C4) *)
(* ================================================================== *)

Lemma SF64mul_comm (x y : spec_float) : SF64mul x y = SF64mul y x.
Proof.
  unfold SF64mul, SFmul. destruct x as [sx|sx| |sx mx ex], y as [sy|sy| |sy my ey];
    try reflexivity; rewrite (xorb_comm sx sy); try reflexivity.
  now rewrite (Pos.mul_comm mx my), (Z.add_comm ex ey).
Qed.

Lemma float_mul_comm (x y : float) : (x * y)%float = (y * x)%float.
Proof. apply Prim2SF_inj. rewrite !mul_spec. apply SF64mul_comm. Qed.

Lemma dot_comm (v1 v2 : vec) : dot v1 v2 = dot v2 v1.
Proof.
  unfold dot. generalize 0%float as acc. revert v2.
  induction v1 as [|x v1 IH]; intros [|y v2] acc; simpl; try reflexivity.
  rewrite (float_mul_comm x y). apply IH.
Qed.

(** Rounding can leave the interval: on doubles the cosine of [1, 1, 1]
    with itself is the double just above 1. *)
Lemma cosine_similarity_ones_above_one :
  all_zero Samples.ones = false
  /\ cosine_similarity Samples.ones Samples.ones = Return 0x1.0000000000001p+0%float
  /\ (1 <? 0x1.0000000000001p+0)%float = true.
Proof. repeat split; vm_compute; reflexivity. Qed.

(** On overflow the quotient is NaN: for the one-element vector [2^600]
    the dot product and the norms are infinite. *)
Lemma cosine_similarity_overflow_nan :
  cosine_similarity [0x1p+600%float] [0x1p+600%float] = Return nan.
Proof. vm_compute. reflexivity. Qed.

(** The function of [Embeddings] is the one of [NumpyEmbeddings] on float64
    arrays. *)
Lemma cosine_similarity_float64 (v1 v2 : vec) :
  cosine_similarity v1 v2
  = NumpyEmbeddings.cosine_similarity NumpyEmbeddings.float64 v1 v2.
Proof.
  unfold cosine_similarity, NumpyEmbeddings.cosine_similarity,
    NumpyEmbeddings.all_zero, all_zero. cbn.
  destruct (forallb _ v1 || forallb _ v2); [reflexivity|].
  destruct (negb (length v1 =? length v2)%nat); reflexivity.
Qed.

Lemma float64_dot_sym (a b : vec) :
  length a = length b ->
  NumpyEmbeddings.np_dot NumpyEmbeddings.float64 a b
  = NumpyEmbeddings.np_dot NumpyEmbeddings.float64 b a.
Proof.
  intros E. cbn. rewrite E, Nat.eqb_refl. cbn [negb].
  now rewrite (dot_comm a b).
Qed.

(** C4 (as the code has it): for two vectors of one dimension, in a float
    format whose multiplication is commutative and with a dot routine that
    gives the same for (a, b) and (b, a), [cosine_similarity v1 v2] and
    [cosine_similarity v2 v1] are the same result. The result is exactly
    zero when a vector is all-zero, and when the dot product is returned and
    a norm is zero; otherwise it is the quotient, in that format, of the dot
    product by the product of the norms. There is no bound on that
    quotient: on doubles it exceeds 1 for [1, 1, 1] and is NaN after an
    overflow. *)
Theorem cosine_similarity_symmetric_zero (F : Type)
    (np : NumpyEmbeddings.Numpy F) (v1 v2 : list F) :
  (forall x y, NumpyEmbeddings.fmul np x y = NumpyEmbeddings.fmul np y x) ->
  (forall a b, length a = length b ->
     NumpyEmbeddings.np_dot np a b = NumpyEmbeddings.np_dot np b a) ->
  length v1 = length v2 ->
  NumpyEmbeddings.cosine_similarity np v1 v2
  = NumpyEmbeddings.cosine_similarity np v2 v1
  /\ (NumpyEmbeddings.all_zero np v1 = true
      \/ NumpyEmbeddings.all_zero np v2 = true ->
      NumpyEmbeddings.cosine_similarity np v1 v2
      = Return (NumpyEmbeddings.zero np))
  /\ (forall d,
        NumpyEmbeddings.np_dot np v1 v2 = Return d ->
        (NumpyEmbeddings.feqb np (NumpyEmbeddings.np_norm np v1)
           (NumpyEmbeddings.zero np) = true
         \/ NumpyEmbeddings.feqb np (NumpyEmbeddings.np_norm np v2)
              (NumpyEmbeddings.zero np) = true ->
         NumpyEmbeddings.cosine_similarity np v1 v2
         = Return (NumpyEmbeddings.zero np))
        /\ (NumpyEmbeddings.all_zero np v1 = false ->
            NumpyEmbeddings.all_zero np v2 = false ->
            NumpyEmbeddings.feqb np (NumpyEmbeddings.np_norm np v1)
              (NumpyEmbeddings.zero np) = false ->
            NumpyEmbeddings.feqb np (NumpyEmbeddings.np_norm np v2)
              (NumpyEmbeddings.zero np) = false ->
            NumpyEmbeddings.cosine_similarity np v1 v2
            = Return (NumpyEmbeddings.fdiv np d
                        (NumpyEmbeddings.fmul np (NumpyEmbeddings.np_norm np v1)
                           (NumpyEmbeddings.np_norm np v2))))).
Proof.
  intros Hmul Hdot Hlen. split; [|split].
  - unfold NumpyEmbeddings.cosine_similarity.
    rewrite (orb_comm (NumpyEmbeddings.all_zero np v1)), (Hdot v1 v2 Hlen).
    rewrite (Hmul (NumpyEmbeddings.np_norm np v1)).
    now rewrite (orb_comm (NumpyEmbeddings.feqb np (NumpyEmbeddings.np_norm np v1)
                             (NumpyEmbeddings.zero np))).
  - intros H. unfold NumpyEmbeddings.cosine_similarity.
    assert (E : NumpyEmbeddings.all_zero np v1 || NumpyEmbeddings.all_zero np v2
                = true) by (apply orb_true_iff; exact H).
    now rewrite E.
  - intros d Hd. split.
    + intros H. unfold NumpyEmbeddings.cosine_similarity.
      destruct (NumpyEmbeddings.all_zero np v1 || NumpyEmbeddings.all_zero np v2);
        [reflexivity|].
      rewrite Hd. cbn [bind].
      assert (E : NumpyEmbeddings.feqb np (NumpyEmbeddings.np_norm np v1)
                    (NumpyEmbeddings.zero np)
                  || NumpyEmbeddings.feqb np (NumpyEmbeddings.np_norm np v2)
                       (NumpyEmbeddings.zero np) = true)
        by (apply orb_true_iff; exact H).
      now rewrite E.
    + intros Z1 Z2 N1 N2. unfold NumpyEmbeddings.cosine_similarity.
      rewrite Z1, Z2, Hd. cbn [orb bind]. now rewrite N1, N2.
Qed.

Lemma cosine_similarity_symmetric_zero_witness :
  cosine_similarity [1; 2]%float [3; 4]%float
  = cosine_similarity [3; 4]%float [1; 2]%float.
Proof.
  rewrite !cosine_similarity_float64.
  refine (proj1 (cosine_similarity_symmetric_zero float NumpyEmbeddings.float64
                   [1; 2]%float [3; 4]%float _ _ _)).
  - exact float_mul_comm.
  - exact float64_dot_sym.
  - reflexivity.
Defined.

(* ================================================================== *)
(** * The sentences kept by [generate_answer] (C3) *)
(* ================================================================== *)

Lemma startswith_segment (s sub : str) :
  startswith s sub = true -> exists post, s = sub ++ post.
Proof.
  revert s. induction sub as [|x sub IH]; intros s H.
  - now exists s.
  - destruct s as [|y s]; simpl in H; [discriminate|].
    apply andb_true_iff in H as [Hx Hs]. apply ascii_eqb_eq in Hx. subst y.
    destruct (IH s Hs) as (post & ->). now exists post.
Qed.

Lemma startswith_app (sub post : str) : startswith (sub ++ post) sub = true.
Proof.
  induction sub as [|x sub IH]; simpl; [now destruct post|].
  apply andb_true_iff. split; [now apply ascii_eqb_eq | assumption].
Qed.

Lemma contains_segment (sub s : str) : contains sub s = true <-> segment sub s.
Proof.
  split.
  - induction s as [|c s IH]; intros H.
    + destruct sub; [now exists [], [] | simpl in H; discriminate].
    + change (startswith (c :: s) sub || contains sub s = true) in H.
      apply orb_true_iff in H as [H|H].
      * apply startswith_segment in H as (post & ->). now exists [], post.
      * destruct (IH H) as (pre & post & ->). now exists (c :: pre), post.
  - intros (pre & post & ->). induction pre as [|c pre IH].
    + change ([] ++ sub ++ post) with (sub ++ post).
      assert (E : contains sub (sub ++ post)
                  = startswith (sub ++ post) sub
                    || match sub ++ post with
                       | [] => false
                       | _ :: s' => contains sub s'
                       end) by (destruct (sub ++ post); reflexivity).
      rewrite E, startswith_app. reflexivity.
    + change (startswith ((c :: pre) ++ sub ++ post) sub
              || contains sub (pre ++ sub ++ post) = true).
      rewrite IH. apply orb_true_r.
Qed.

Lemma segment_trans (a b c : str) : segment a b -> segment b c -> segment a c.
Proof.
  intros (p1 & q1 & ->) (p2 & q2 & ->). exists (p2 ++ p1), (q1 ++ q2).
  now rewrite <- !app_assoc.
Qed.

Lemma segment_lower (a b : str) : segment a b -> segment (lower a) (lower b).
Proof.
  intros (p & q & ->). exists (lower p), (lower q). unfold lower.
  now rewrite !map_app.
Qed.

(** Every piece of a split is a run of characters of the text. *)
Lemma split_aux_segment (sep : str) (s : str) :
  forall (skip : nat) (cur p : str),
    skip = 0%nat \/ cur = [] ->
    In p (split_aux sep s skip cur) -> segment p (rev cur ++ s).
Proof.
  induction s as [|c s IH]; intros skip cur p Hinv Hp; cbn [split_aux] in Hp.
  - destruct Hp as [<-|[]]. exists [], []. now rewrite !app_nil_r.
  - destruct skip as [|k].
    + destruct (startswith (c :: s) sep).
      * destruct Hp as [<-|Hp]; [now exists [], (c :: s)|].
        apply IH in Hp; [|now right]. simpl in Hp.
        destruct Hp as (pre & post & ->).
        exists (rev cur ++ c :: pre), post. now rewrite <- app_assoc.
      * apply IH in Hp; [|now left]. simpl in Hp.
        now rewrite <- app_assoc in Hp.
    + destruct Hinv as [Hz | ->]; [discriminate|].
      apply IH in Hp; [|now right]. simpl in *.
      destruct Hp as (pre & post & ->). now exists (c :: pre), post.
Qed.

Lemma split_segment (s sep p : str) : In p (split s sep) -> segment p s.
Proof.
  intros H. apply (split_aux_segment sep s 0 [] p) in H; [assumption | now left].
Qed.

(** A keyword of a sentence is a keyword of its context. *)
Lemma has_keyword_segment (kws : list str) (sentence context : str) :
  segment sentence context ->
  has_keyword kws sentence = true -> has_keyword kws context = true.
Proof.
  intros Hseg H. unfold has_keyword in *. apply existsb_exists in H as (k & Hk & Hc).
  apply existsb_exists. exists k. split; [assumption|].
  apply contains_segment. apply contains_segment in Hc.
  eapply segment_trans; [exact Hc | now apply segment_lower].
Qed.

Lemma add_sentence_skip (kws : list str) (sentences acc : list str) :
  Forall (fun s => has_keyword kws s = false) sentences ->
  fold_left (add_sentence kws) sentences acc = acc.
Proof.
  intros H. revert acc. induction H as [|s l Hs _ IH]; intros acc; simpl;
    [reflexivity|].
  unfold add_sentence at 2. rewrite Hs. apply IH.
Qed.

(** The test on the whole context changes nothing. *)
Lemma scan_context_fold (kws acc : list str) (context : str) :
  scan_context kws acc context
  = fold_left (add_sentence kws) (split context (lit ". ")) acc.
Proof.
  unfold scan_context. destruct (has_keyword kws context) eqn:E; [reflexivity|].
  symmetry. apply add_sentence_skip. apply Forall_forall. intros s Hs.
  destruct (has_keyword kws s) eqn:Es; [|reflexivity].
  apply split_segment in Hs.
  rewrite (has_keyword_segment kws s context Hs Es) in E. discriminate.
Qed.

Lemma relevant_sentences_fold (kws contexts acc : list str) :
  fold_left (scan_context kws) contexts acc
  = fold_left (add_sentence kws)
      (flat_map (fun c => split c (lit ". ")) contexts) acc.
Proof.
  revert acc. induction contexts as [|c contexts IH]; intros acc; simpl;
    [reflexivity|].
  rewrite fold_left_app, IH, scan_context_fold. reflexivity.
Qed.

Lemma filter_filter_comm {A} (f g : A -> bool) (l : list A) :
  filter f (filter g l) = filter g (filter f l).
Proof.
  induction l as [|x l IH]; simpl; [reflexivity|].
  destruct (f x) eqn:Ef, (g x) eqn:Eg; simpl; rewrite ?Ef, ?Eg, IH; reflexivity.
Qed.

Lemma filter_filter_absorb {A} (f g : A -> bool) (l : list A) :
  (forall x, f x = true -> g x = true) ->
  filter f (filter g l) = filter f l.
Proof.
  intros H. induction l as [|x l IH]; simpl; [reflexivity|].
  destruct (g x) eqn:Eg; simpl.
  - now rewrite IH.
  - destruct (f x) eqn:Ef; [|assumption]. rewrite (H x Ef) in Eg. discriminate.
Qed.

Lemma filter_filter_and {A} (f g : A -> bool) (l : list A) :
  filter (fun x => f x && g x) l = filter g (filter f l).
Proof.
  induction l as [|x l IH]; simpl; [reflexivity|].
  destruct (f x); simpl; [|assumption]. destruct (g x); now rewrite IH.
Qed.

Lemma dedup_first_filter (f : str -> bool) (l : list str) :
  dedup_first (filter f l) = filter f (dedup_first l).
Proof.
  induction l as [|x l IH]; simpl; [reflexivity|].
  destruct (f x) eqn:E; simpl.
  - rewrite IH. f_equal. apply filter_filter_comm.
  - rewrite IH. symmetry. apply filter_filter_absorb.
    intros y Hy. destruct (str_eqb y x) eqn:Eq; [|reflexivity].
    apply str_eqb_eq in Eq. subst y. congruence.
Qed.

Lemma mem_app (x : str) (l1 l2 : list str) :
  mem x (l1 ++ l2) = mem x l1 || mem x l2.
Proof. unfold mem. apply existsb_app. Qed.

Lemma add_sentence_cases (kws acc : list str) (s : str) :
  add_sentence kws acc s
  = if qualifies kws s && negb (mem s acc) then acc ++ [s] else acc.
Proof.
  unfold add_sentence, qualifies.
  destruct (has_keyword kws s), (mem s acc), (10 <? len s); reflexivity.
Qed.

Lemma fold_add_sentence (kws : list str) (l : list str) :
  forall acc,
    fold_left (add_sentence kws) l acc
    = acc ++ dedup_first
               (filter (fun s => qualifies kws s && negb (mem s acc)) l).
Proof.
  induction l as [|s l IH]; intros acc; simpl; [now rewrite app_nil_r|].
  rewrite add_sentence_cases.
  destruct (qualifies kws s && negb (mem s acc)) eqn:E.
  - rewrite IH, <- app_assoc. simpl. do 2 f_equal.
    rewrite <- dedup_first_filter, <- filter_filter_and. f_equal.
    apply filter_ext. intros y. rewrite mem_app. simpl.
    rewrite orb_false_r, negb_orb. now rewrite andb_assoc.
  - apply IH.
Qed.

Lemma relevant_sentences_kept (kws contexts : list str) :
  relevant_sentences kws contexts
  = dedup_first (filter (qualifies kws)
                   (flat_map (fun c => split c (lit ". ")) contexts)).
Proof.
  unfold relevant_sentences. rewrite relevant_sentences_fold, fold_add_sentence.
  simpl. f_equal. apply filter_ext. intros s. simpl. apply andb_true_r.
Qed.

Lemma build_answer_tail (l : list str) :
  forall (i : Z) (answer : str),
    0 < i ->
    fold_left
      (fun answer item =>
         (if 0 <? fst item then answer ++ lit " " else answer)
         ++ clean_sentence (snd item))
      (enumerate_from i l) answer
    = answer ++ concat (map (fun s => lit " " ++ clean_sentence s) l).
Proof.
  induction l as [|s l IH]; intros i answer Hi; simpl; [now rewrite app_nil_r|].
  assert (E : (0 <? i) = true) by lia. rewrite E, IH by lia.
  now rewrite <- !app_assoc.
Qed.

Lemma join_cons (sep x : str) (l : list str) :
  join sep (x :: l) = x ++ concat (map (fun s => sep ++ s) l).
Proof.
  revert x. induction l as [|y l IH]; intros x; [simpl; now rewrite app_nil_r|].
  change (join sep (x :: y :: l)) with (x ++ sep ++ join sep (y :: l)).
  rewrite (IH y). cbn [map concat]. now rewrite <- app_assoc.
Qed.

Lemma build_answer_join (sentences : list str) :
  build_answer sentences
  = answer_prefix ++ join (lit " ") (map clean_sentence (firstn 5 sentences)).
Proof.
  unfold build_answer. rewrite slice_to_firstn.
  assert (E : firstn (Z.to_nat (norm_index (len sentences) 5)) sentences
              = firstn 5 sentences).
  { unfold norm_index, len. change (5 <? 0) with false. cbv iota.
    destruct (Z_le_gt_dec 5 (Z.of_nat (length sentences))) as [H|H].
    - replace (Z.min 5 (Z.of_nat (length sentences))) with 5 by lia. reflexivity.
    - rewrite (firstn_all2 (n := 5)) by lia. apply firstn_all2. lia. }
  rewrite E. destruct (firstn 5 sentences) as [|s l]; [now rewrite app_nil_r|].
  unfold enumerate. cbn [enumerate_from fold_left fst snd map].
  simpl (0 <? 0). cbv iota.
  rewrite build_answer_tail by lia. rewrite join_cons, map_map.
  now rewrite <- app_assoc.
Qed.

Lemma clean_sentence_period (sentence : str) :
  endswith (clean_sentence sentence) (lit ".") = true.
Proof.
  unfold clean_sentence. destruct (endswith (strip sentence) (lit ".")) eqn:E;
    [assumption|].
  unfold endswith. rewrite rev_app_distr. apply startswith_app.
Qed.

(** A sentence of exactly ten characters with a keyword is not kept, and
    the answer falls back to the first context. *)
Lemma generate_answer_ten_characters_dropped :
  len (lit "revenue 10") = 10
  /\ has_keyword (keywords (lit "What is the revenue")) (lit "revenue 10") = true
  /\ generate_answer (lit "What is the revenue") [lit "revenue 10"]
     = fallback_prefix ++ lit "revenue 10".
Proof. repeat split; vm_compute; reflexivity. Qed.

(** C3 (as the code has it): for a non-empty context list, the kept
    sentences are the sentences of the contexts, split on ". ", that contain
    a query keyword and have more than 10 characters, each at its first
    occurrence and without repeats; when there is one, the answer is the
    prefix followed by the first 5 of them, stripped, each ending with a
    period, one space between them. *)
Theorem generate_answer_kept_sentences (query : str) (contexts : list str) :
  contexts <> [] ->
  let kws := keywords query in
  let kept :=
    dedup_first (filter (fun s => has_keyword kws s && (10 <? len s))
                   (flat_map (fun c => split c (lit ". ")) contexts)) in
  relevant_sentences kws contexts = kept
  /\ NoDup kept
  /\ (kept <> [] ->
      generate_answer query contexts
      = answer_prefix ++ join (lit " ") (map clean_sentence (firstn 5 kept)))
  /\ Forall (fun s => endswith s (lit ".") = true)
       (map clean_sentence (firstn 5 kept)).
Proof.
  intros Hne. cbv zeta.
  pose proof (relevant_sentences_kept (keywords query) contexts) as Hk.
  unfold qualifies in Hk.
  set (kept := dedup_first _) in *.
  split; [exact Hk|]. split; [|split].
  - unfold kept. generalize (filter (fun s => has_keyword (keywords query) s && (10 <? len s))
                     (flat_map (fun c => split c (lit ". ")) contexts)).
    intros l. induction l as [|x l IH]; simpl; constructor.
    + intros Hin. apply filter_In in Hin as [_ Hx].
      assert (str_eqb x x = true) by now apply str_eqb_eq.
      rewrite H in Hx. discriminate.
    + now apply NoDup_filter.
  - intros Hkept. unfold generate_answer.
    destruct contexts as [|first rest]; [contradiction|].
    rewrite Hk. destruct kept as [|s l] eqn:E; [contradiction|].
    apply build_answer_join.
  - apply Forall_forall. intros s Hs. apply in_map_iff in Hs as (x & <- & _).
    apply clean_sentence_period.
Qed.

Lemma generate_answer_kept_sentences_witness :
  generate_answer (lit "What is the revenue")
    [lit "Revenue was 10 in 2020. Costs were high. The revenue grew"; lit "revenue 10"]
  = lit "Based on the financial document, Revenue was 10 in 2020. The revenue grew.".
Proof.
  destruct (generate_answer_kept_sentences (lit "What is the revenue")
              [lit "Revenue was 10 in 2020. Costs were high. The revenue grew";
               lit "revenue 10"]
              ltac:(discriminate)) as (_ & _ & H & _).
  rewrite H; [vm_compute; reflexivity | vm_compute; discriminate].
Defined.

(* ================================================================== *)
(** * Further properties of the chunker *)
(* ================================================================== *)

Lemma try_except_lift_returns {A} (m : outcome A) (label : str) (a0 : A) :
  exists out a,
    try_except (io_lift m)
      (fun e => _ <~ print (label ++ exn_msg e) ;; io_ret a0)
    = (out, Return a)
    /\ (out <> [] -> a = a0).
Proof.
  destruct m as [a|e]; simpl.
  - exists [], a. split; [reflexivity | intros H; now elim H].
  - eexists _, a0. split; [reflexivity | reflexivity].
Qed.

(** X1: [process_document] never raises, whatever the readers do: it returns a
    chunk list, and whenever an error message was printed that list is
    empty. *)
Theorem process_document_never_raises (env : Env) (file_path : str) :
  exists out chunks,
    process_document env file_path = (out, Return chunks)
    /\ (out <> [] -> chunks = []).
Proof.
  unfold process_document.
  set (ext := lower (snd (splitext file_path))).
  destruct (str_eqb ext (lit ".pdf")).
  { apply try_except_lift_returns. }
  destruct (str_eqb ext (lit ".csv")).
  { unfold process_csv.
    destruct (try_except_lift_returns
                (df <- read_csv env file_path ;; dataframe_to_chunks env df 50 None)
                (lit "Error processing CSV: ") []) as (out & a & E & H).
    rewrite E. exists out, a. split; [reflexivity | assumption]. }
  destruct (mem ext [lit ".xlsx"; lit ".xls"]).
  { unfold process_excel.
    destruct (try_except_lift_returns
                (sheets <- read_excel env file_path ;;
                 per_sheet <- traverse
                   (fun sheet => dataframe_to_chunks env (snd sheet) 50
                                   (Some (fst sheet))) sheets ;;
                 Return (concat per_sheet))
                (lit "Error processing Excel: ") []) as (out & a & E & H).
    rewrite E. exists out, a. split; [reflexivity | assumption]. }
  apply try_except_lift_returns.
Qed.

Lemma range_up_length (fuel : nat) (stop step : Z) :
  1 <= step ->
  forall i,
    (Z.to_nat (stop - i) <= fuel)%nat ->
    len (range_up fuel i stop step) = Z.max 0 ((stop - i + step - 1) / step).
Proof.
  intros Hstep. induction fuel as [|fuel IH]; intros i Hfuel.
  - simpl. assert ((stop - i + step - 1) / step < 1)
      by (apply Z.div_lt_upper_bound; lia).
    unfold len. simpl. lia.
  - simpl. destruct (i <? stop) eqn:E.
    + apply Z.ltb_lt in E. unfold len in *. simpl length.
      rewrite Nat2Z.inj_succ, IH by lia.
      replace (stop - i + step - 1) with ((stop - i - 1) + 1 * step) by lia.
      rewrite Z.div_add by lia.
      replace (stop - (i + step) + step - 1) with (stop - i - 1) by lia.
      assert (0 <= (stop - i - 1) / step) by (apply Z.div_pos; lia). lia.
    + apply Z.ltb_ge in E.
      assert ((stop - i + step - 1) / step < 1)
        by (apply Z.div_lt_upper_bound; lia).
      unfold len. simpl. lia.
Qed.

Lemma dataframe_to_chunks_length (env : Env) (df : DataFrame)
    (max_rows_per_chunk : Z) (sheet_name : option str) :
  1 <= max_rows_per_chunk ->
  exists chunks,
    dataframe_to_chunks env df max_rows_per_chunk sheet_name = Return chunks
    /\ len chunks
       = 1 + (len (rows df) + max_rows_per_chunk - 1) / max_rows_per_chunk.
Proof.
  intros Hmax. unfold dataframe_to_chunks, range.
  assert (E0 : (max_rows_per_chunk =? 0) = false) by lia.
  assert (E1 : (0 <? max_rows_per_chunk) = true) by lia.
  rewrite E0, E1. cbn [bind]. eexists. split; [reflexivity|].
  pose proof (range_up_length (Z.to_nat (len (rows df) - 0)) (len (rows df))
                max_rows_per_chunk Hmax 0 ltac:(lia)) as Hlen.
  pose proof (len_nonneg (rows df)) as Hn.
  assert (0 <= (len (rows df) - 0 + max_rows_per_chunk - 1) / max_rows_per_chunk)
    by (apply Z.div_pos; lia).
  unfold len in *. simpl length. rewrite length_map.
  replace (Z.of_nat (length (rows df)) + max_rows_per_chunk - 1)
    with (Z.of_nat (length (rows df)) - 0 + max_rows_per_chunk - 1) by lia.
  lia.
Qed.

(** X5: for [max_rows_per_chunk >= 1] a table of [n] rows gives one schema
    chunk and [ceil(n / max_rows_per_chunk)] row chunks, so the result is
    never empty, not even for an empty table. *)
Theorem dataframe_to_chunks_count (env : Env) (df : DataFrame)
    (max_rows_per_chunk : Z) (sheet_name : option str) :
  1 <= max_rows_per_chunk ->
  exists chunks,
    dataframe_to_chunks env df max_rows_per_chunk sheet_name = Return chunks
    /\ len chunks
       = 1 + (len (rows df) + max_rows_per_chunk - 1) / max_rows_per_chunk.
Proof. apply dataframe_to_chunks_length. Qed.

Lemma dataframe_to_chunks_count_witness :
  exists chunks,
    dataframe_to_chunks Samples.no_files Samples.revenue_table 2 None = Return chunks
    /\ len chunks = 3.
Proof.
  destruct (dataframe_to_chunks_count Samples.no_files Samples.revenue_table 2 None
              ltac:(lia)) as (chunks & H1 & H2).
  exists chunks. split; [exact H1 | exact H2].
Defined.

(** X6: a step of zero makes [range] raise, so [dataframe_to_chunks] raises and
    [process_csv] turns that into a printed message and an empty list; a
    negative step gives an empty range, so only the schema chunk is returned
    and the rows are left out without any error. *)
Theorem dataframe_to_chunks_nonpositive_step (env : Env) (df : DataFrame)
    (max_rows_per_chunk : Z) (sheet_name : option str) (file_path : str) :
  max_rows_per_chunk <= 0 ->
  read_csv env file_path = Return df ->
  (max_rows_per_chunk = 0 ->
     dataframe_to_chunks env df 0 sheet_name
     = Raise (ValueError (lit "range() arg 3 must not be zero"))
     /\ process_csv env file_path 0
        = ([lit "Error processing CSV: range() arg 3 must not be zero"], Return []))
  /\ (max_rows_per_chunk < 0 ->
        dataframe_to_chunks env df max_rows_per_chunk sheet_name
        = Return [schema_info env (fillna df) (len (rows df)) sheet_name]).
Proof.
  intros Hmax Hread. split.
  - intros _. split; [reflexivity|].
    unfold process_csv. rewrite Hread. reflexivity.
  - intros Hneg. unfold dataframe_to_chunks, range.
    assert (E0 : (max_rows_per_chunk =? 0) = false) by lia.
    assert (E1 : (0 <? max_rows_per_chunk) = false) by lia.
    rewrite E0, E1. cbn [bind].
    replace (Z.to_nat (0 - len (rows df))) with 0%nat
      by (pose proof (len_nonneg (rows df)); lia).
    reflexivity.
Qed.

Lemma dataframe_to_chunks_nonpositive_step_witness :
  process_csv MoreSamples.revenue_files (lit "q.csv") 0
  = ([lit "Error processing CSV: range() arg 3 must not be zero"], Return []).
Proof.
  destruct (dataframe_to_chunks_nonpositive_step MoreSamples.revenue_files
              Samples.revenue_table 0 None (lit "q.csv")
              ltac:(lia) ltac:(reflexivity)) as [H _].
  destruct (H eq_refl) as [_ H2]. exact H2.
Defined.

(** X3: a readable CSV file: [process_document] prints nothing and returns the
    chunks of [dataframe_to_chunks] with 50 rows per chunk, of which there
    is at least the schema chunk. *)
Theorem process_document_csv (env : Env) (file_path : str) (df : DataFrame) :
  lower (snd (splitext file_path)) = lit ".csv" ->
  read_csv env file_path = Return df ->
  exists chunks,
    process_document env file_path = ([], Return chunks)
    /\ dataframe_to_chunks env df 50 None = Return chunks
    /\ len chunks = 1 + (len (rows df) + 49) / 50.
Proof.
  intros Hext Hread.
  destruct (dataframe_to_chunks_length env df 50 None ltac:(lia)) as (chunks & Hc & Hl).
  replace (len (rows df) + 50 - 1) with (len (rows df) + 49) in Hl by lia.
  exists chunks. split; [|split; [exact Hc | exact Hl]].
  unfold process_document. rewrite Hext.
  change (str_eqb (lit ".csv") (lit ".pdf")) with false.
  change (str_eqb (lit ".csv") (lit ".csv")) with true. cbv iota.
  unfold process_csv. rewrite Hread. cbn [bind]. rewrite Hc. reflexivity.
Qed.

Lemma process_document_csv_witness :
  exists chunks,
    process_document MoreSamples.revenue_files (lit "data/Q4.CSV") = ([], Return chunks)
    /\ dataframe_to_chunks MoreSamples.revenue_files Samples.revenue_table 50 None
       = Return chunks
    /\ len chunks = 1 + (len (rows Samples.revenue_table) + 49) / 50.
Proof.
  apply (process_document_csv MoreSamples.revenue_files (lit "data/Q4.CSV")
           Samples.revenue_table).
  - vm_compute. reflexivity.
  - reflexivity.
Defined.

Lemma traverse_sheets (env : Env) (sheets : list (str * DataFrame)) :
  exists per_sheet,
    traverse (fun sheet => dataframe_to_chunks env (snd sheet) 50 (Some (fst sheet)))
             sheets = Return per_sheet
    /\ Forall2 (fun sheet chunks =>
                  dataframe_to_chunks env (snd sheet) 50 (Some (fst sheet))
                  = Return chunks
                  /\ len chunks = 1 + (len (rows (snd sheet)) + 49) / 50)
               sheets per_sheet.
Proof.
  induction sheets as [|sheet sheets (per_sheet & IH & Hall)]; cbn [traverse].
  - exists []. split; [reflexivity | constructor].
  - destruct (dataframe_to_chunks_length env (snd sheet) 50 (Some (fst sheet))
                ltac:(lia)) as (chunks & Hc & Hl).
    replace (len (rows (snd sheet)) + 50 - 1)
      with (len (rows (snd sheet)) + 49) in Hl by lia.
    rewrite Hc. cbn [bind]. rewrite IH. cbn [bind].
    exists (chunks :: per_sheet). split; [reflexivity|]. now constructor.
Qed.

(** X4: a readable workbook: [process_document] prints nothing and returns the
    chunks of the sheets one after the other, in sheet order; every sheet
    contributes its own schema chunk and its row chunks of 50 rows, tagged
    with the sheet name. *)
Theorem process_document_excel (env : Env) (file_path : str)
    (sheets : list (str * DataFrame)) :
  In (lower (snd (splitext file_path))) [lit ".xlsx"; lit ".xls"] ->
  read_excel env file_path = Return sheets ->
  exists per_sheet,
    process_document env file_path = ([], Return (concat per_sheet))
    /\ Forall2 (fun sheet chunks =>
                  dataframe_to_chunks env (snd sheet) 50 (Some (fst sheet))
                  = Return chunks
                  /\ len chunks = 1 + (len (rows (snd sheet)) + 49) / 50)
               sheets per_sheet.
Proof.
  intros Hext Hread.
  destruct (traverse_sheets env sheets) as (per_sheet & Ht & Hall).
  exists per_sheet. split; [|exact Hall].
  unfold process_document.
  set (ext := lower (snd (splitext file_path))) in *.
  assert (Hpdf : str_eqb ext (lit ".pdf") = false).
  { destruct (str_eqb ext (lit ".pdf")) eqn:E; [|reflexivity].
    apply str_eqb_eq in E. rewrite E in Hext. simpl in Hext.
    destruct Hext as [H|[H|[]]]; discriminate. }
  assert (Hcsv : str_eqb ext (lit ".csv") = false).
  { destruct (str_eqb ext (lit ".csv")) eqn:E; [|reflexivity].
    apply str_eqb_eq in E. rewrite E in Hext. simpl in Hext.
    destruct Hext as [H|[H|[]]]; discriminate. }
  assert (Hx : mem ext [lit ".xlsx"; lit ".xls"] = true) by now apply mem_In.
  rewrite Hpdf, Hcsv, Hx. unfold process_excel. rewrite Hread. cbn [bind].
  rewrite Ht. reflexivity.
Qed.

Lemma process_document_excel_witness :
  exists per_sheet,
    process_document MoreSamples.revenue_files (lit "book.xlsx")
    = ([], Return (concat per_sheet))
    /\ Forall2 (fun sheet chunks =>
                  dataframe_to_chunks MoreSamples.revenue_files (snd sheet) 50
                    (Some (fst sheet)) = Return chunks
                  /\ len chunks = 1 + (len (rows (snd sheet)) + 49) / 50)
               [(lit "2023", Samples.revenue_table)] per_sheet.
Proof.
  apply (process_document_excel MoreSamples.revenue_files (lit "book.xlsx")
           [(lit "2023", Samples.revenue_table)]).
  - left. vm_compute. reflexivity.
  - reflexivity.
Defined.

(* ================================================================== *)
(** * Further properties of the sliding window *)
(* ================================================================== *)

Lemma lstrip_suffix (s : str) : exists ws, s = ws ++ lstrip s.
Proof.
  induction s as [|c s (ws & IH)]; simpl.
  - now exists [].
  - destruct (isspace c).
    + exists (c :: ws). simpl. now rewrite <- IH.
    + now exists [].
Qed.

Lemma lstrip_head (s : str) (c : ascii) (rest : str) :
  lstrip s = c :: rest -> isspace c = false.
Proof.
  induction s as [|x s IH]; simpl; [discriminate|].
  destruct (isspace x) eqn:E; [assumption|].
  intros H. injection H as <- _. assumption.
Qed.

Lemma lstrip_fixed (s : str) :
  match s with [] => True | c :: _ => isspace c = false end -> lstrip s = s.
Proof. destruct s as [|c s]; simpl; [reflexivity|]. now intros ->. Qed.

(** What [strip] leaves: the text is white space, then the result, then
    white space, and the result neither starts nor ends with white space. *)
Lemma strip_shape (s : str) :
  (exists before after, s = before ++ strip s ++ after)
  /\ lstrip (strip s) = strip s
  /\ lstrip (rev (strip s)) = rev (strip s).
Proof.
  unfold strip.
  destruct (lstrip_suffix s) as (ws1 & E1).
  destruct (lstrip_suffix (rev (lstrip s))) as (ws2 & E2).
  set (a := lstrip s) in *. set (b := lstrip (rev a)) in *.
  assert (Ea : a = rev b ++ rev ws2).
  { rewrite <- (rev_involutive a), E2, rev_app_distr. reflexivity. }
  split; [|split].
  - exists ws1, (rev ws2). now rewrite <- Ea.
  - apply lstrip_fixed. destruct (rev b) as [|c r] eqn:Eb; [exact I|].
    simpl in Ea. unfold a in Ea.
    now apply lstrip_head in Ea.
  - rewrite rev_involutive. apply lstrip_fixed.
    destruct b as [|c r] eqn:Eb; [exact I|].
    unfold b in Eb. now apply lstrip_head in Eb.
Qed.

Lemma strip_idempotent (s : str) : strip (strip s) = strip s.
Proof.
  destruct (strip_shape s) as (_ & H1 & H2).
  unfold strip at 1. rewrite H1, H2. apply rev_involutive.
Qed.

Lemma slice_segment (s : str) (a b : Z) : segment (slice s a b) s.
Proof.
  unfold slice.
  set (m := Z.to_nat (norm_index (len s) a)).
  set (n := Z.to_nat (norm_index (len s) b - norm_index (len s) a)).
  exists (firstn m s), (skipn n (skipn m s)).
  now rewrite firstn_skipn, firstn_skipn.
Qed.

Lemma strip_segment (s : str) : segment (strip s) s.
Proof. destruct (strip_shape s) as ((before & after & E) & _). now exists before, after. Qed.

Lemma chunk_loop_Forall (P : str -> Prop) (fuel : nat) (text : str)
    (chunk_size overlap : Z) :
  (forall a b, strip (slice text a b) <> [] -> P (strip (slice text a b))) ->
  forall (current_pos : Z) (chunks result : list str),
    Forall P chunks ->
    chunk_loop fuel text chunk_size overlap current_pos chunks = Some result ->
    Forall P result.
Proof.
  intros HP. induction fuel as [|fuel IH]; intros pos chunks result Hc Hr.
  - simpl in Hr. destruct (pos <? len text); [discriminate|]. congruence.
  - simpl in Hr. destruct (pos <? len text); [|congruence].
    set (chunk := strip (slice text pos (chunk_end_of text pos chunk_size))) in Hr.
    assert (Hc' : Forall P match chunk with [] => chunks | _ :: _ => chunks ++ [chunk] end).
    { destruct chunk eqn:Ec; [assumption|]. rewrite <- Ec.
      apply Forall_app. split; [assumption|]. constructor; [|constructor].
      apply HP. fold chunk. rewrite Ec. discriminate. }
    destruct (len text <=? next_pos pos chunk_size overlap).
    + injection Hr as <-. exact Hc'.
    + eapply IH; [exact Hc' | exact Hr].
Qed.

(** X8: every chunk of [split_text] is not empty, has no white space at either
    end (stripping it again changes nothing), and is a run of consecutive
    characters of the text: the chunker invents no text. *)
Theorem prose_chunks_trimmed_segments (text : str) (chunk_size overlap : Z)
    (chunks : list str) :
  split_text text chunk_size overlap = Some chunks ->
  Forall (fun c => c <> [] /\ strip c = c /\ segment c text) chunks.
Proof.
  intros H. unfold split_text in H.
  eapply chunk_loop_Forall; [| constructor | exact H].
  intros a b Hne. split; [assumption|]. split; [apply strip_idempotent|].
  eapply segment_trans; [apply strip_segment | apply slice_segment].
Qed.

Lemma prose_chunks_trimmed_segments_witness :
  Forall (fun c => c <> [] /\ strip c = c /\ segment c Samples.prose)
    [lit "Hello world."; lit "is is a test!"; lit "nother sentence here";
     lit "here? Yes."].
Proof.
  apply (prose_chunks_trimmed_segments Samples.prose 20 5).
  vm_compute. reflexivity.
Defined.

(** X9: when [chunk_size <= 2 * overlap + 5], the next window starts no later
    than where the current chunk ends (or the text is finished), so no
    character falls between two windows. With a smaller overlap a chunk cut
    at a boundary can end before the next window starts. *)
Theorem windows_leave_no_gap (text : str) (current_pos chunk_size overlap : Z) :
  1 <= chunk_size ->
  0 <= overlap ->
  chunk_size <= 2 * overlap + 5 ->
  0 <= current_pos < len text ->
  Z.min (next_pos current_pos chunk_size overlap) (len text)
  <= chunk_end_of text current_pos chunk_size.
Proof.
  intros Hs Ho Hso Hp. rewrite next_pos_advance.
  destruct (chunk_end_of_cases text current_pos chunk_size) as [H|[H|H]]; lia.
Qed.

Lemma windows_leave_no_gap_witness :
  Z.min (next_pos 0 20 8) (len Samples.prose) <= chunk_end_of Samples.prose 0 20.
Proof.
  apply (windows_leave_no_gap Samples.prose 0 20 8); vm_compute; try discriminate.
  split; [discriminate | reflexivity].
Defined.

(** X10: a window that does not reach the end of the text keeps more than half of
    [chunk_size] characters before stripping: a boundary in the front half
    never cuts the chunk. *)
Theorem window_keeps_back_half (text : str) (current_pos chunk_size : Z) :
  1 <= chunk_size ->
  0 <= current_pos ->
  current_pos + chunk_size < len text ->
  chunk_size < 2 * (chunk_end_of text current_pos chunk_size - current_pos)
  /\ len (slice text current_pos (chunk_end_of text current_pos chunk_size))
     = chunk_end_of text current_pos chunk_size - current_pos.
Proof.
  intros Hs Hp Hw.
  pose proof (chunk_end_of_le text current_pos chunk_size Hp ltac:(lia)) as Hle.
  assert (Hhalf : chunk_size
                  < 2 * (chunk_end_of text current_pos chunk_size - current_pos)).
  { destruct (chunk_end_of_cases text current_pos chunk_size) as [H|[H|H]]; lia. }
  split; [exact Hhalf|]. apply slice_length; lia.
Qed.

Lemma window_keeps_back_half_witness :
  20 < 2 * (chunk_end_of Samples.prose 0 20 - 0)
  /\ len (slice Samples.prose 0 (chunk_end_of Samples.prose 0 20))
     = chunk_end_of Samples.prose 0 20 - 0.
Proof.
  apply (window_keeps_back_half Samples.prose 0 20); vm_compute; try discriminate.
  reflexivity.
Defined.

(* ================================================================== *)
(** * Further properties of the retriever *)
(* ================================================================== *)

Lemma SFltb_not_leb (x y : spec_float) : SFltb x y = true -> SFleb y x = false.
Proof. sf_order. Qed.

Lemma float_ltb_not_leb (a b : float) :
  (a <? b)%float = true -> (b <=? a)%float = false.
Proof. rewrite ltb_spec, leb_spec. apply SFltb_not_leb. Qed.

Lemma insert_desc_perm (x : scored) (l : list scored) :
  Permutation (insert_desc x l) (x :: l).
Proof.
  induction l as [|y l IH]; simpl; [apply Permutation_refl|].
  destruct (snd x <? snd y)%float; [|apply Permutation_refl].
  eapply perm_trans; [apply perm_skip, IH | apply perm_swap].
Qed.

Lemma sort_desc_perm (l : list scored) : Permutation (sort_desc l) l.
Proof.
  induction l as [|x l IH]; simpl; [constructor|].
  eapply perm_trans; [apply insert_desc_perm | now apply perm_skip].
Qed.

Lemma StronglySorted_lt_NoDup (l : list Z) : StronglySorted Z.lt l -> NoDup l.
Proof.
  induction 1 as [|x l Hs IH Hx]; constructor; [|assumption].
  intros Hin. rewrite Forall_forall in Hx. apply Hx in Hin. lia.
Qed.

Lemma NoDup_map_filter {A B} (g : A -> B) (f : A -> bool) (l : list A) :
  NoDup (map g l) -> NoDup (map g (filter f l)).
Proof.
  induction l as [|x l IH]; simpl; intros H; [constructor|].
  inversion H as [|? ? Hx Hl]; subst. destruct (f x); simpl; [|now apply IH].
  constructor; [|now apply IH]. intros Hin. apply Hx.
  apply in_map_iff in Hin as (y & Hy & Hin). apply filter_In in Hin as [Hin _].
  rewrite <- Hy. now apply in_map.
Qed.

Lemma NoDup_firstn {A} (n : nat) (l : list A) : NoDup l -> NoDup (firstn n l).
Proof.
  intros H. revert n. induction H as [|x l Hx Hl IH]; intros n.
  - rewrite firstn_nil. constructor.
  - destruct n as [|n]; simpl; constructor; [|apply IH].
    intros Hin. apply Hx. rewrite <- (firstn_skipn n l). apply in_or_app. now left.
Qed.

Lemma getitem_values (documents : list str) (indices : list Z) (contexts : list str) :
  Forall (fun i => 0 <= i) indices ->
  traverse (getitem documents) indices = Return contexts ->
  contexts = map (fun i => nth (Z.to_nat i) documents []) indices.
Proof.
  intros H. revert contexts. induction H as [|i indices Hi _ IH]; intros contexts Ht.
  - simpl in Ht. now injection Ht as <-.
  - cbn [traverse] in Ht. unfold getitem at 1 in Ht.
    assert (E : (i <? 0) = false) by lia. rewrite E in Ht.
    destruct ((0 <=? i) && (i <? len documents)); cbn [bind] in Ht; [|discriminate].
    destruct (traverse (getitem documents) indices) as [rest|e]; cbn [bind] in Ht;
      [|discriminate].
    injection Ht as <-. simpl. f_equal. now apply IH.
Qed.

(** X13: the indices [retrieve_context] returns are pairwise different row
    numbers of the embedding array, and the contexts are the documents at
    exactly these indices, in the same order; a caller can rebuild the
    contexts from the indices. *)
Theorem retrieve_context_indices (embed_query : str -> vec) (query : str)
    (documents : list str) (rows : list vec) (top_k : Z) (threshold : float)
    (sims : list scored) :
  (length rows <= length documents)%nat ->
  similarities (embed_query query) rows = Return sims ->
  exists contexts indices,
    retrieve_context embed_query query documents (Some rows) top_k threshold
    = Return (contexts, indices)
    /\ NoDup indices
    /\ Forall (fun i => 0 <= i < len rows) indices
    /\ contexts = map (fun i => nth (Z.to_nat i) documents []) indices.
Proof.
  intros Hlen Hs.
  destruct (retrieve_context_returns embed_query query documents rows top_k
              threshold sims Hlen Hs) as (top & contexts & Ht & Hr & Hl).
  pose proof (top_similarities_rows _ _ _ _ _ _ Hs Ht) as Hrows.
  exists contexts, (map fst top).
  assert (Hrange : Forall (fun i => 0 <= i < len rows) (map fst top)).
  { apply Forall_forall. intros i Hi. apply in_map_iff in Hi as (p & <- & Hp).
    rewrite Forall_forall in Hrows. now apply Hrows in Hp. }
  split; [exact Hr|]. split; [|split; [exact Hrange|]].
  - rewrite (top_similarities_unfold _ _ top_k threshold _ Hs) in Ht.
    injection Ht as <-. rewrite slice_to_firstn, <- firstn_map.
    apply NoDup_firstn, NoDup_map_filter.
    eapply Permutation_NoDup.
    + apply Permutation_map, Permutation_sym, sort_desc_perm.
    + rewrite (similarities_indices _ _ _ Hs).
      apply StronglySorted_lt_NoDup, enumerate_from_sorted.
  - destruct documents as [|d documents].
    + assert (rows = []) by (destruct rows; [reflexivity | simpl in Hlen; lia]).
      subst rows. destruct top as [|p top'].
      * simpl in Hr. now injection Hr as <-.
      * inversion Hrange as [|? ? Hp _]; subst. unfold len in Hp. simpl in Hp. lia.
    + unfold retrieve_context in Hr. rewrite Ht in Hr. cbn [bind] in Hr.
      destruct (traverse (getitem (d :: documents)) (map fst top)) as [cs|e] eqn:Et;
        cbn [bind] in Hr; [|discriminate].
      injection Hr as <-. apply getitem_values; [|exact Et].
      eapply Forall_impl; [|exact Hrange]. simpl. intros. lia.
Qed.

Lemma retrieve_context_indices_witness :
  exists contexts indices,
    retrieve_context (Samples.embed_const Samples.unit_x) (lit "revenue")
      Samples.four_docs (Some Samples.four_rows) 3 0.25
    = Return (contexts, indices)
    /\ NoDup indices
    /\ Forall (fun i => 0 <= i < len Samples.four_rows) indices
    /\ contexts = map (fun i => nth (Z.to_nat i) Samples.four_docs []) indices.
Proof.
  apply (retrieve_context_indices (Samples.embed_const Samples.unit_x)
           (lit "revenue") Samples.four_docs Samples.four_rows 3 0.25%float
           Samples.four_scores).
  - simpl. lia.
  - vm_compute. reflexivity.
Defined.

Lemma StronglySorted_app_inv {A} (R : A -> A -> Prop) (l1 l2 : list A) :
  StronglySorted R (l1 ++ l2) ->
  forall x y, In x l1 -> In y l2 -> R x y.
Proof.
  induction l1 as [|a l1 IH]; simpl; intros H x y Hx Hy; [contradiction|].
  apply StronglySorted_inv in H as [Hs Ha]. destruct Hx as [<-|Hx].
  - rewrite Forall_forall in Ha. apply Ha. apply in_or_app. now right.
  - now apply IH.
Qed.

(** X14: the pairs that are kept are the best ones: a scored chunk that is left
    out either is below the threshold, or the result is full ([top_k] pairs)
    and every kept pair ranks before it. In particular, when fewer than
    [top_k] pairs come back, every chunk at or above the threshold is among
    them. *)
Theorem top_similarities_best (query_embedding : vec) (rows : list vec)
    (top_k : Z) (threshold : float) (sims top : list scored) (p : scored) :
  0 <= top_k ->
  similarities query_embedding rows = Return sims ->
  Forall (fun q => is_nan (snd q) = false) sims ->
  top_similarities query_embedding rows top_k threshold = Return top ->
  In p sims ->
  ~ In p top ->
  (threshold <=? snd p)%float = false
  \/ (len top = top_k /\ Forall (fun r => ranked_before r p) top).
Proof.
  intros Hk Hs Hnan Ht Hp Hout.
  rewrite (top_similarities_unfold _ _ top_k threshold _ Hs) in Ht.
  injection Ht as <-.
  destruct (threshold <=? snd p)%float eqn:Ethr; [right | now left].
  set (filtered := filter (fun q => (threshold <=? snd q)%float) (sort_desc sims)) in *.
  assert (Hf : In p filtered).
  { apply filter_In. split; [now apply sort_desc_In | assumption]. }
  assert (Hsorted : StronglySorted ranked_before filtered).
  { apply StronglySorted_filter, sort_desc_ranked; [assumption|].
    rewrite (similarities_indices _ _ _ Hs). apply enumerate_from_sorted. }
  rewrite slice_to_firstn in *.
  set (k := Z.to_nat (norm_index (len filtered) top_k)) in *.
  rewrite <- (firstn_skipn k filtered) in Hf, Hsorted.
  apply in_app_or in Hf as [Hf|Hf]; [contradiction|].
  split.
  - assert (Hlt : (k < length filtered)%nat).
    { destruct (Nat.lt_ge_cases k (length filtered)) as [H|H]; [assumption|].
      rewrite skipn_all2 in Hf by assumption. contradiction. }
    unfold len. rewrite length_firstn. unfold k, norm_index, len in *.
    assert (E : (top_k <? 0) = false) by lia. rewrite E in *. lia.
  - apply Forall_forall. intros r Hr.
    now apply (StronglySorted_app_inv _ _ _ Hsorted).
Qed.

Lemma top_similarities_best_witness :
  (0.25 <=? snd (2, 0x1.6a09e667f3bccp-1%float))%float = false
  \/ (len [(0, 1%float); (3, 1%float)] = 2
      /\ Forall (fun r => ranked_before r (2, 0x1.6a09e667f3bccp-1%float))
           [(0, 1%float); (3, 1%float)]).
Proof.
  apply (top_similarities_best Samples.unit_x Samples.four_rows 2 0.25%float
           Samples.four_scores [(0, 1%float); (3, 1%float)]
           (2, 0x1.6a09e667f3bccp-1%float)).
  - lia.
  - vm_compute. reflexivity.
  - repeat constructor.
  - vm_compute. reflexivity.
  - simpl. tauto.
  - simpl. intros [H|[H|[]]]; discriminate.
Defined.

Lemma similarities_all_zero (q : vec) (rows : list vec) :
  all_zero q = true \/ Forall (fun row => all_zero row = true) rows ->
  exists sims,
    similarities q rows = Return sims
    /\ Forall (fun p => snd p = 0%float) sims.
Proof.
  intros H. unfold similarities, enumerate. generalize 0 as i.
  induction rows as [|row rows IH]; intros i; cbn [enumerate_from traverse].
  - exists []. split; [reflexivity | constructor].
  - assert (Hrow : cosine_similarity q row = Return 0%float).
    { unfold cosine_similarity. destruct H as [->|H]; [reflexivity|].
      inversion H as [|? ? Hz _]; subst. rewrite Hz, orb_true_r. reflexivity. }
    assert (Hrest : all_zero q = true \/ Forall (fun r => all_zero r = true) rows).
    { destruct H as [H|H]; [now left | right]. now inversion H. }
    destruct (IH Hrest (i + 1)) as (sims & Hs & Hz).
    cbn [snd fst]. rewrite Hrow. cbn [bind]. rewrite Hs. cbn [bind].
    eexists. split; [reflexivity|]. constructor; [reflexivity | assumption].
Qed.

(** X15: when the query embedding is all-zero, or every row of the embedding
    array is (what the embedder returns when its model fails), every score
    is 0.0: with a threshold above zero [retrieve_context] returns the empty
    pair and raises nothing, whatever the dimensions are, and the composer
    then answers with the insufficient-information message. *)
Theorem retrieve_context_zero_embeddings (embed_query : str -> vec) (query : str)
    (documents : list str) (rows : list vec) (top_k : Z) (threshold : float) :
  all_zero (embed_query query) = true
  \/ Forall (fun row => all_zero row = true) rows ->
  (0 <? threshold)%float = true ->
  retrieve_context embed_query query documents (Some rows) top_k threshold
  = Return ([], [])
  /\ generate_answer query [] = insufficient.
Proof.
  intros Hzero Hthr. split; [|reflexivity].
  destruct documents as [|d documents]; [reflexivity|].
  destruct (similarities_all_zero _ _ Hzero) as (sims & Hs & Hz).
  unfold retrieve_context.
  rewrite (top_similarities_unfold _ _ top_k threshold _ Hs).
  rewrite filter_none.
  - unfold slice_to. rewrite slice_nil. reflexivity.
  - apply sort_desc_Forall. eapply Forall_impl; [|exact Hz].
    intros p Hp. cbv beta in Hp. rewrite Hp. now apply float_ltb_not_leb.
Qed.

Lemma retrieve_context_zero_embeddings_witness :
  retrieve_context (Samples.embed_const [0; 0; 0]%float) (lit "revenue")
    Samples.four_docs (Some Samples.four_rows) 3 0.25
  = Return ([], [])
  /\ generate_answer (lit "revenue") [] = insufficient.
Proof.
  apply (retrieve_context_zero_embeddings (Samples.embed_const [0; 0; 0]%float)
           (lit "revenue") Samples.four_docs Samples.four_rows 3 0.25%float).
  - left. reflexivity.
  - vm_compute. reflexivity.
Defined.

(* ================================================================== *)
(** * The embedder's fallback *)
(* ================================================================== *)

Lemma all_zero_repeat (n : nat) : all_zero (repeat 0%float n) = true.
Proof. induction n as [|n IH]; simpl; [reflexivity | exact IH]. Qed.

(** X11: when the model cannot be loaded or its [encode] raises, and the
    dimension used for the fallback is not negative, [generate_embeddings]
    prints the error and returns one all-zero row of that dimension per text
    chunk, raising nothing; the dimension is the model's when the model was
    loaded and reports it, else 384. *)
Theorem generate_embeddings_fallback (load : EmbeddingModel.Loader)
    (text_chunks : list str) (model_name : str) (e : exn) :
  (model <- load model_name ;; EmbeddingModel.encode_many model text_chunks)
  = Raise e ->
  0 <= EmbeddingModel.fallback_dim (load model_name) ->
  exists rows,
    EmbeddingModel.generate_embeddings load text_chunks model_name
    = ([lit "Error generating embeddings: " ++ exn_msg e], Return rows)
    /\ length rows = length text_chunks
    /\ Forall (fun row => all_zero row = true
                          /\ len row = EmbeddingModel.fallback_dim (load model_name))
              rows.
Proof.
  intros Hfail Hdim. unfold EmbeddingModel.generate_embeddings.
  rewrite Hfail. unfold EmbeddingModel.zeros2, EmbeddingModel.zeros.
  assert (E : (EmbeddingModel.fallback_dim (load model_name) <? 0) = false) by lia.
  rewrite E. eexists. split; [reflexivity|]. split.
  - rewrite repeat_length. unfold len. lia.
  - apply Forall_forall. intros row Hrow. apply repeat_spec in Hrow. subst row.
    split; [apply all_zero_repeat|]. unfold len. rewrite repeat_length. lia.
Qed.

Lemma generate_embeddings_fallback_witness :
  exists rows,
    EmbeddingModel.generate_embeddings MoreSamples.no_model
      [lit "one"; lit "two"] EmbeddingModel.default_model_name
    = ([lit "Error generating embeddings: model not found"], Return rows)
    /\ length rows = 2%nat
    /\ Forall (fun row => all_zero row = true /\ len row = 384) rows.
Proof.
  apply (generate_embeddings_fallback MoreSamples.no_model [lit "one"; lit "two"]
           EmbeddingModel.default_model_name (OtherError (lit "model not found"))).
  - reflexivity.
  - vm_compute. discriminate.
Defined.

(** X12: when the model cannot be loaded or its [encode] raises, [embed_query]
    prints the error and returns an all-zero vector; a retrieval with that
    query vector and a threshold above zero finds nothing. *)
Theorem embed_query_fallback (load : EmbeddingModel.Loader) (query : str)
    (model_name : str) (e : exn) :
  (model <- load model_name ;; EmbeddingModel.encode_one model query) = Raise e ->
  0 <= EmbeddingModel.fallback_dim (load model_name) ->
  exists v,
    EmbeddingModel.embed_query load query model_name
    = ([lit "Error embedding query: " ++ exn_msg e], Return v)
    /\ all_zero v = true
    /\ len v = EmbeddingModel.fallback_dim (load model_name)
    /\ forall documents rows top_k threshold,
         (0 <? threshold)%float = true ->
         retrieve_context (fun _ => v) query documents (Some rows) top_k threshold
         = Return ([], []).
Proof.
  intros Hfail Hdim. unfold EmbeddingModel.embed_query.
  rewrite Hfail. unfold EmbeddingModel.zeros.
  assert (E : (EmbeddingModel.fallback_dim (load model_name) <? 0) = false) by lia.
  rewrite E. eexists. split; [reflexivity|].
  split; [apply all_zero_repeat|]. split.
  - unfold len. rewrite repeat_length. lia.
  - intros documents rows top_k threshold Hthr.
    destruct documents as [|d documents]; [reflexivity|].
    destruct (similarities_all_zero
                (repeat 0%float (Z.to_nat (EmbeddingModel.fallback_dim (load model_name))))
                rows (or_introl (all_zero_repeat _))) as (sims & Hs & Hz).
    unfold retrieve_context.
    rewrite (top_similarities_unfold _ _ top_k threshold _ Hs).
    rewrite filter_none.
    + unfold slice_to. rewrite slice_nil. reflexivity.
    + apply sort_desc_Forall. eapply Forall_impl; [|exact Hz].
      intros p Hp. cbv beta in Hp. rewrite Hp. now apply float_ltb_not_leb.
Qed.

Lemma embed_query_fallback_witness :
  exists v,
    EmbeddingModel.embed_query MoreSamples.no_model (lit "revenue")
      EmbeddingModel.default_model_name
    = ([lit "Error embedding query: model not found"], Return v)
    /\ all_zero v = true
    /\ len v = 384
    /\ forall documents rows top_k threshold,
         (0 <? threshold)%float = true ->
         retrieve_context (fun _ => v) (lit "revenue") documents (Some rows)
           top_k threshold
         = Return ([], []).
Proof.
  apply (embed_query_fallback MoreSamples.no_model (lit "revenue")
           EmbeddingModel.default_model_name (OtherError (lit "model not found"))).
  - reflexivity.
  - vm_compute. discriminate.
Defined.

(* ================================================================== *)
(** * The prompt builder *)
(* ================================================================== *)

Lemma combine_contexts_bound (max_context_length : Z) (contexts : list str) :
  0 <= max_context_length ->
  forall (i : Z) (combined : str),
    0 <= i ->
    (i = 0 -> combined = []) ->
    len combined <= max_context_length ->
    len (Prompt.combine_contexts max_context_length (enumerate_from i contexts)
           combined (len combined))
    <= max_context_length.
Proof.
  intros Hmax. induction contexts as [|c contexts IH]; intros i combined Hi H0 Hlen;
    cbn [enumerate_from Prompt.combine_contexts fst snd]; [assumption|].
  destruct (max_context_length <? len combined + len (Prompt.context_addition i c)) eqn:E.
  - destruct (i =? 0) eqn:Ei; [|assumption].
    apply Z.eqb_eq in Ei. rewrite (H0 Ei). cbn [app].
    rewrite slice_to_len. unfold norm_index.
    assert (E0 : (max_context_length <? 0) = false) by lia. rewrite E0. lia.
  - apply Z.ltb_ge in E.
    replace (len combined + len (Prompt.context_addition i c))
      with (len (combined ++ Prompt.context_addition i c))
      by (unfold len; rewrite length_app; lia).
    apply IH; [lia | lia |].
    unfold len in *. rewrite length_app. lia.
Qed.

(** X18: for [max_context_length >= 0] the combined context that
    [augment_query_with_context] puts into the prompt has at most
    [max_context_length] characters, however many and however long the
    contexts are. *)
Theorem combined_context_bounded (contexts : list str) (max_context_length : Z) :
  0 <= max_context_length ->
  len (Prompt.combined_context_of contexts max_context_length)
  <= max_context_length.
Proof.
  intros Hmax. unfold Prompt.combined_context_of, enumerate.
  apply (combine_contexts_bound max_context_length contexts Hmax 0 []);
    [lia | reflexivity | unfold len; simpl; lia].
Qed.

Lemma combined_context_bounded_witness :
  len (Prompt.combined_context_of [lit "Revenue was 10."; lit "Costs fell."] 30) <= 30.
Proof.
  apply (combined_context_bounded [lit "Revenue was 10."; lit "Costs fell."] 30). lia.
Defined.




(* ================================================================== *)
(** * The composer's fallback *)
(* ================================================================== *)

(** X20: when the query has no keyword left after the stopwords are dropped, or
    no sentence of more than 10 characters contains a keyword, the answer is
    the fallback phrase followed by the first context, unchanged; the other
    contexts are not used. *)
Theorem generate_answer_fallback (query first : str) (rest : list str) :
  keywords query = []
  \/ Forall (fun s => has_keyword (keywords query) s = false \/ len s <= 10)
       (flat_map (fun c => split c (lit ". ")) (first :: rest)) ->
  generate_answer query (first :: rest) = fallback_prefix ++ first.
Proof.
  intros H. unfold generate_answer.
  rewrite relevant_sentences_kept.
  assert (E : filter (qualifies (keywords query))
                (flat_map (fun c => split c (lit ". ")) (first :: rest)) = []).
  { apply filter_none. destruct H as [H|H].
    - apply Forall_forall. intros s _. unfold qualifies. now rewrite H.
    - eapply Forall_impl; [|exact H]. intros s [Hs|Hs]; unfold qualifies.
      + now rewrite Hs.
      + apply andb_false_iff. right. lia. }
  rewrite E. reflexivity.
Qed.

Lemma generate_answer_fallback_witness :
  generate_answer (lit "What is the") [lit "Revenue was 10 in 2020."; lit "Costs."]
  = fallback_prefix ++ lit "Revenue was 10 in 2020.".
Proof.
  apply (generate_answer_fallback (lit "What is the") (lit "Revenue was 10 in 2020.")
           [lit "Costs."]).
  left. vm_compute. reflexivity.
Defined.

(* ================================================================== *)
(** * The guardrails *)
(* ================================================================== *)

Lemma existsb_false_Forall {A} (f : A -> bool) (l : list A) :
  existsb f l = false <-> Forall (fun x => f x = false) l.
Proof.
  induction l as [|x l IH]; simpl.
  - split; [constructor | reflexivity].
  - rewrite orb_false_iff, IH. split.
    + intros [Hx Hl]. now constructor.
    + intros H. now inversion H.
Qed.

(** X21: [input_validator] accepts a query exactly when its stripped length is
    at least 3, its length is at most 500 and no sensitive pattern matches;
    an accepted query gets the empty message. Whether a financial term
    matches has no effect on the verdict. *)
Theorem input_validator_accepts (search : Guardrails.Search) (query : str) :
  (fst (Guardrails.input_validator search query) = true
   <-> 3 <= len (strip query) /\ len query <= 500
       /\ Forall (fun pattern => search pattern query = false)
            Guardrails.sensitive_patterns)
  /\ (fst (Guardrails.input_validator search query) = true ->
      snd (Guardrails.input_validator search query) = [])
  /\ (forall search' : Guardrails.Search,
        (forall pattern, In pattern Guardrails.sensitive_patterns ->
           search' pattern query = search pattern query) ->
        Guardrails.input_validator search' query
        = Guardrails.input_validator search query).
Proof.
  assert (Hempty : match query with [] => true | _ :: _ => false end
                   || (len (strip query) <? 3)
                   = (len (strip query) <? 3)).
  { destruct query; [reflexivity|]. reflexivity. }
  split; [|split].
  - unfold Guardrails.input_validator. rewrite Hempty.
    destruct (len (strip query) <? 3) eqn:E1.
    { simpl. split; [discriminate | lia]. }
    destruct (500 <? len query) eqn:E2.
    { simpl. split; [discriminate | lia]. }
    destruct (existsb (fun pattern => search pattern query)
                Guardrails.sensitive_patterns) eqn:E3.
    { simpl. split; [discriminate|]. intros (_ & _ & H).
      apply existsb_false_Forall in H. congruence. }
    apply existsb_false_Forall in E3.
    destruct (negb (Guardrails.check_financial_relevance search query)); simpl;
      (split; [intros _; repeat split; [lia | lia | assumption] | reflexivity]).
  - unfold Guardrails.input_validator. rewrite Hempty.
    destruct (len (strip query) <? 3); [discriminate|].
    destruct (500 <? len query); [discriminate|].
    destruct (existsb _ Guardrails.sensitive_patterns); [discriminate|].
    destruct (negb _); reflexivity.
  - intros search' Hsame. unfold Guardrails.input_validator.
    assert (E : existsb (fun pattern => search' pattern query)
                  Guardrails.sensitive_patterns
                = existsb (fun pattern => search pattern query)
                    Guardrails.sensitive_patterns).
    { generalize Hsame. generalize Guardrails.sensitive_patterns as l.
      induction l as [|p l IH]; intros Hl; simpl; [reflexivity|].
      rewrite (Hl p (or_introl eq_refl)), IH; [reflexivity|].
      intros q Hq. apply Hl. now right. }
    rewrite E.
    destruct (negb (Guardrails.check_financial_relevance search' query)),
             (negb (Guardrails.check_financial_relevance search query));
      reflexivity.
Qed.

(** X22: [output_validator] replaces an answer whose stripped length is below 10
    by the fixed no-answer message. An answer of stripped length 10 or more
    in which a harmful pattern is found is replaced by the fixed refusal.
    Every other answer is kept: the result is the answer itself, character
    for character, with nothing or the uncertainty note before it and
    nothing or the disclaimer after it. *)
Theorem output_validator_keeps_answer (search : Guardrails.Search) (answer : str) :
  (len (strip answer) < 10 ->
   Guardrails.output_validator search answer = Guardrails.no_answer_message)
  /\ (10 <= len (strip answer) ->
      existsb (fun pattern => search pattern answer) Guardrails.harmful_patterns
      = true ->
      Guardrails.output_validator search answer = Guardrails.harmful_message)
  /\ (10 <= len (strip answer) ->
      existsb (fun pattern => search pattern answer) Guardrails.harmful_patterns
      = false ->
      exists note disc,
        Guardrails.output_validator search answer = note ++ answer ++ disc
        /\ (note = [] \/ note = Guardrails.uncertainty_note)
        /\ (disc = [] \/ disc = Guardrails.disclaimer)
        /\ segment answer (Guardrails.output_validator search answer)).
Proof.
  assert (Hlong : 10 <= len (strip answer) ->
            match answer with [] => true | _ :: _ => false end
            || (len (strip answer) <? 10) = false).
  { intros H. destruct answer as [|c answer].
    { assert (E : len (strip []) = 0) by reflexivity. rewrite E in H. lia. }
    cbn [orb]. lia. }
  unfold Guardrails.output_validator. split; [|split].
  - intros H. assert (E : (len (strip answer) <? 10) = true) by lia.
    rewrite E, orb_true_r. reflexivity.
  - intros H Hh. rewrite (Hlong H), Hh. reflexivity.
  - intros H Hh. rewrite (Hlong H), Hh.
    match goal with |- context [Guardrails.uncertainty_count ?a] =>
      set (answer1 := a) end.
    assert (H1 : exists disc, answer1 = answer ++ disc
                   /\ (disc = [] \/ disc = Guardrails.disclaimer)).
    { unfold answer1.
      destruct (contains (lit "financial advice") (lower answer)
                || contains (lit "investment advice") (lower answer)).
      - destruct (negb (contains Guardrails.disclaimer answer)).
        + exists Guardrails.disclaimer. split; [reflexivity | now right].
        + exists []. split; [now rewrite app_nil_r | now left].
      - exists []. split; [now rewrite app_nil_r | now left]. }
    destruct H1 as (disc & E1 & Hd).
    destruct ((2 <=? Guardrails.uncertainty_count answer1) && negb _).
    + exists Guardrails.uncertainty_note, disc. rewrite E1.
      split; [reflexivity|]. split; [now right|]. split; [assumption|].
      exists Guardrails.uncertainty_note, disc. reflexivity.
    + exists [], disc. rewrite E1.
      split; [reflexivity|]. split; [now left|]. split; [assumption|].
      exists [], disc. reflexivity.
Qed.

Lemma lower_char_not_capital_i (c : ascii) : lower_char c <> "I"%char.
Proof.
  destruct c as [[] [] [] [] [] [] [] []]; vm_compute; discriminate.
Qed.

Lemma contains_capital_i_lower (sub answer : str) :
  In "I"%char sub -> contains sub (lower answer) = false.
Proof.
  intros Hin. destruct (contains sub (lower answer)) eqn:E; [|reflexivity].
  apply contains_segment in E as (pre & post & E). exfalso.
  assert (H : In "I"%char (lower answer)).
  { rewrite E. apply in_or_app. right. apply in_or_app. now left. }
  unfold lower in H. apply in_map_iff in H as (c & Hc & _).
  now apply lower_char_not_capital_i in Hc.
Qed.

(** X23: the marker "I think" is looked for in the lowercased answer, where a
    capital I cannot occur, so it never counts: the uncertainty count is the
    number of the other six markers found, at most 6. *)
Theorem uncertainty_count_ignores_i_think (answer : str) :
  contains (lit "I think") (lower answer) = false
  /\ Guardrails.uncertainty_count answer
     = len (filter (fun marker => contains marker (lower answer))
              (map lit ["might"; "may"; "could"; "possibly"; "perhaps"; "likely"]%string))
  /\ Guardrails.uncertainty_count answer <= 6.
Proof.
  assert (H : contains (lit "I think") (lower answer) = false).
  { apply contains_capital_i_lower. simpl. tauto. }
  split; [exact H|].
  assert (E : Guardrails.uncertainty_count answer
     = len (filter (fun marker => contains marker (lower answer))
              (map lit ["might"; "may"; "could"; "possibly"; "perhaps"; "likely"]%string))).
  { unfold Guardrails.uncertainty_count, Guardrails.uncertainty_markers.
    cbn [map filter]. rewrite H. reflexivity. }
  split; [exact E|]. rewrite E.
  pose proof (filter_length_mono (fun marker => contains marker (lower answer))
                (fun _ => true)
                (map lit ["might"; "may"; "could"; "possibly"; "perhaps"; "likely"]%string)
                (fun _ _ => eq_refl)) as Hle.
  unfold len. simpl in Hle |- *. lia.
Qed.

(** X24: an answer that passes the length and harm checks and mentions financial
    or investment advice (in any letter case) leaves [output_validator] with
    the disclaimer in it; the disclaimer is appended only when the answer
    does not contain it already. *)
Theorem output_validator_disclaimer (search : Guardrails.Search) (answer : str) :
  10 <= len (strip answer) ->
  existsb (fun pattern => search pattern answer) Guardrails.harmful_patterns = false ->
  contains (lit "financial advice") (lower answer) = true
  \/ contains (lit "investment advice") (lower answer) = true ->
  segment Guardrails.disclaimer (Guardrails.output_validator search answer)
  /\ (contains Guardrails.disclaimer answer = true ->
      Guardrails.output_validator search answer = answer
      \/ Guardrails.output_validator search answer
         = Guardrails.uncertainty_note ++ answer).
Proof.
  intros Hlen Hharm Hadvice. unfold Guardrails.output_validator.
  assert (E1 : match answer with [] => true | _ :: _ => false end
               || (len (strip answer) <? 10) = false).
  { destruct answer as [|c s]; [unfold len in Hlen; simpl in Hlen; lia|].
    simpl. lia. }
  assert (E2 : contains (lit "financial advice") (lower answer)
               || contains (lit "investment advice") (lower answer) = true)
    by (apply orb_true_iff; exact Hadvice).
  rewrite E1, Hharm, E2.
  destruct (contains Guardrails.disclaimer answer) eqn:Ed; cbn [negb].
  - split.
    + apply contains_segment in Ed.
      destruct ((2 <=? Guardrails.uncertainty_count answer) && negb _);
        [|exact Ed].
      eapply segment_trans; [exact Ed|].
      exists Guardrails.uncertainty_note, []. now rewrite app_nil_r.
    + intros _.
      destruct ((2 <=? Guardrails.uncertainty_count answer) && negb _);
        [now right | now left].
  - split; [|discriminate].
    assert (Hd : segment Guardrails.disclaimer (answer ++ Guardrails.disclaimer)).
    { exists answer, []. now rewrite app_nil_r. }
    destruct ((2 <=? Guardrails.uncertainty_count (answer ++ Guardrails.disclaimer))
              && negb _); [|exact Hd].
    eapply segment_trans; [exact Hd|].
    exists Guardrails.uncertainty_note, []. now rewrite app_nil_r.
Qed.

Lemma output_validator_disclaimer_witness :
  segment Guardrails.disclaimer
    (Guardrails.output_validator MoreSamples.never
       (lit "This is not Financial Advice at all."))
  /\ (contains Guardrails.disclaimer (lit "This is not Financial Advice at all.") = true ->
      Guardrails.output_validator MoreSamples.never
        (lit "This is not Financial Advice at all.")
      = lit "This is not Financial Advice at all."
      \/ Guardrails.output_validator MoreSamples.never
           (lit "This is not Financial Advice at all.")
         = Guardrails.uncertainty_note ++ lit "This is not Financial Advice at all.").
Proof.
  apply (output_validator_disclaimer MoreSamples.never
           (lit "This is not Financial Advice at all.")).
  - vm_compute. discriminate.
  - reflexivity.
  - left. vm_compute. reflexivity.
Defined.

(* ================================================================== *)
(** * [clean_text] *)
(* ================================================================== *)

Module CleanFacts.

Import CleanText.

#[local] Arguments ascii_eqb : simpl never.

Lemma startswith_nil (s : str) : startswith s [] = true.
Proof. now destruct s. Qed.

Lemma startswith_cons (c x : ascii) (u w : str) :
  startswith (c :: u) (x :: w) = ascii_eqb x c && startswith u w.
Proof. reflexivity. Qed.

Lemma startswith_one (x : ascii) (s : str) :
  startswith s [x] = match s with [] => false | c :: _ => ascii_eqb x c end.
Proof.
  destruct s as [|c u]; [reflexivity|].
  rewrite startswith_cons, startswith_nil. apply andb_true_r.
Qed.

Lemma closing_not_space (c : ascii) : closing c = true -> isspace c = false.
Proof. destruct c as [[] [] [] [] [] [] [] []]; vm_compute; congruence. Qed.

Lemma opening_not_space (c : ascii) : opening c = true -> isspace c = false.
Proof. destruct c as [[] [] [] [] [] [] [] []]; vm_compute; congruence. Qed.

Lemma contains_cons (w : str) (c : ascii) (t : str) :
  contains w (c :: t) = startswith (c :: t) w || contains w t.
Proof. reflexivity. Qed.

(** *** Dropping one character of a pair *)

(** The shape shared by [sub_newlines] and [sub_spaces]: a character [x]
    goes when the text after it starts with [k] more of them. *)
Lemma sub_newlines_one (s : str) :
  startswith (sub_newlines s) ["010"%char] = true ->
  startswith s ["010"%char] = true.
Proof.
  destruct s as [|c t]; cbn [sub_newlines]; [intros H; exact H|].
  destruct (is_nl c && startswith t (nl ++ nl)) eqn:D.
  - intros _. apply andb_true_iff in D as [D _]. unfold is_nl in D.
    now rewrite startswith_one.
  - now rewrite !startswith_one.
Qed.

Lemma sub_newlines_two (s : str) :
  startswith (sub_newlines s) (nl ++ nl) = true -> startswith s (nl ++ nl) = true.
Proof.
  induction s as [|c t IH]; cbn [sub_newlines]; [intros H; exact H|].
  destruct (is_nl c && startswith t (nl ++ nl)) eqn:D.
  - intros _. apply andb_true_iff in D as [D1 D2]. unfold is_nl in D1.
    change (nl ++ nl) with ["010"%char; "010"%char] in *.
    rewrite startswith_cons, D1. cbn [andb].
    destruct t as [|d u]; [discriminate|].
    rewrite startswith_cons in D2. apply andb_true_iff in D2 as [D2 _].
    now rewrite startswith_one.
  - change (nl ++ nl) with ["010"%char; "010"%char] in *.
    rewrite !startswith_cons. intros H. apply andb_true_iff in H as [H1 H2].
    rewrite H1. cbn [andb]. now apply sub_newlines_one.
Qed.

Lemma sub_newlines_no_three_here (s : str) :
  startswith (sub_newlines s) (nl ++ nl ++ nl) = false.
Proof.
  induction s as [|c t IH]; cbn [sub_newlines]; [reflexivity|].
  destruct (is_nl c && startswith t (nl ++ nl)) eqn:D; [exact IH|].
  change (nl ++ nl ++ nl) with ("010"%char :: (nl ++ nl)).
  rewrite startswith_cons.
  destruct (ascii_eqb "010" c) eqn:E; [|reflexivity]. cbn [andb].
  destruct (startswith (sub_newlines t) (nl ++ nl)) eqn:F; [|reflexivity].
  apply sub_newlines_two in F. unfold is_nl in D. rewrite E, F in D. discriminate.
Qed.

Lemma sub_newlines_no_three (s : str) :
  contains (nl ++ nl ++ nl) (sub_newlines s) = false.
Proof.
  induction s as [|c t IH]; [reflexivity|].
  pose proof (sub_newlines_no_three_here (c :: t)) as H.
  cbn [sub_newlines] in *.
  destruct (is_nl c && startswith t (nl ++ nl)); [exact IH|].
  rewrite contains_cons, H, IH. reflexivity.
Qed.

(** *** Spaces *)

Lemma sub_spaces_one (s : str) :
  startswith (sub_spaces s) [" "%char] = true -> startswith s [" "%char] = true.
Proof.
  destruct s as [|c t]; cbn [sub_spaces]; [intros H; exact H|].
  destruct (is_blank c && startswith t (lit " ")) eqn:D.
  - intros _. apply andb_true_iff in D as [D _]. unfold is_blank in D.
    now rewrite startswith_one.
  - now rewrite !startswith_one.
Qed.

Lemma sub_spaces_keeps_blank (s : str) :
  startswith s [" "%char] = true -> startswith (sub_spaces s) [" "%char] = true.
Proof.
  induction s as [|c t IH]; cbn [sub_spaces]; [intros H; exact H|].
  intros H. destruct (is_blank c && startswith t (lit " ")) eqn:D.
  - apply IH. now apply andb_true_iff in D as [_ D].
  - rewrite startswith_one in *. exact H.
Qed.

Lemma sub_spaces_no_two_here (s : str) :
  startswith (sub_spaces s) (lit "  ") = false.
Proof.
  induction s as [|c t IH]; cbn [sub_spaces]; [reflexivity|].
  destruct (is_blank c && startswith t (lit " ")) eqn:D; [exact IH|].
  change (lit "  ") with [" "%char; " "%char]. change (lit " ") with [" "%char] in *.
  rewrite startswith_cons.
  destruct (ascii_eqb " " c) eqn:E; [|reflexivity]. cbn [andb].
  destruct (startswith (sub_spaces t) [" "%char]) eqn:F; [|reflexivity].
  apply sub_spaces_one in F. unfold is_blank in D. rewrite E, F in D. discriminate.
Qed.

Lemma sub_spaces_no_two (s : str) : contains (lit "  ") (sub_spaces s) = false.
Proof.
  induction s as [|c t IH]; [reflexivity|].
  pose proof (sub_spaces_no_two_here (c :: t)) as H.
  cbn [sub_spaces] in *.
  destruct (is_blank c && startswith t (lit " ")); [exact IH|].
  rewrite contains_cons, H, IH. reflexivity.
Qed.

(** A text without spaces that starts the result started the input. *)
Lemma sub_spaces_startswith (s : str) :
  forall w,
    Forall (fun x => is_blank x = false) w ->
    startswith (sub_spaces s) w = true -> startswith s w = true.
Proof.
  induction s as [|c t IH]; intros w Hw H; [exact H|].
  destruct w as [|x w]; [reflexivity|].
  inversion Hw as [|? ? Hx Hw']; subst.
  cbn [sub_spaces] in H.
  destruct (is_blank c && startswith t (lit " ")) eqn:D.
  - exfalso. apply andb_true_iff in D as [_ D].
    change (lit " ") with [" "%char] in D.
    apply sub_spaces_keeps_blank in D.
    destruct (sub_spaces t) as [|e v]; [discriminate|].
    rewrite startswith_one in D. rewrite startswith_cons in H.
    apply andb_true_iff in H as [H _].
    apply ascii_eqb_eq in D. apply ascii_eqb_eq in H. subst e x.
    unfold is_blank in Hx. rewrite (proj2 (ascii_eqb_eq _ _) eq_refl) in Hx.
    discriminate.
  - rewrite startswith_cons in *. apply andb_true_iff in H as [H1 H2].
    rewrite H1. cbn [andb]. now apply IH.
Qed.

Lemma sub_spaces_contains (s : str) (w : str) :
  w <> [] ->
  Forall (fun x => is_blank x = false) w ->
  contains w (sub_spaces s) = true -> contains w s = true.
Proof.
  intros Hne Hw. induction s as [|c t IH]; intros H.
  - destruct w; [contradiction | discriminate].
  - rewrite contains_cons. apply orb_true_iff.
    cbn [sub_spaces] in H.
    destruct (is_blank c && startswith t (lit " ")) eqn:D.
    + right. now apply IH.
    + rewrite contains_cons in H. apply orb_true_iff in H as [H|H].
      * left. apply (sub_spaces_startswith (c :: t) w Hw).
        cbn [sub_spaces]. now rewrite D.
      * right. now apply IH.
Qed.

(** *** White space before a closing character *)

Lemma sub_before_head (t : str) :
  before_closing t = true ->
  exists p r, sub_before t = p :: r /\ closing p = true.
Proof.
  unfold before_closing. induction t as [|d u IH]; cbn [lstrip sub_before];
    [discriminate|].
  destruct (isspace d) eqn:Ed.
  - intros H. unfold before_closing. rewrite H. cbn [andb]. now apply IH.
  - intros H. cbn [andb]. now exists d, (sub_before u).
Qed.

Lemma sub_before_startswith (s : str) :
  forall w,
    Forall (fun x => isspace x = true) w ->
    startswith (sub_before s) w = true -> startswith s w = true.
Proof.
  induction s as [|c t IH]; intros w Hw H; [exact H|].
  destruct w as [|x w]; [reflexivity|].
  inversion Hw as [|? ? Hx Hw']; subst.
  cbn [sub_before] in H.
  destruct (isspace c && before_closing t) eqn:D.
  - exfalso. apply andb_true_iff in D as [_ D].
    destruct (sub_before_head t D) as (p & r & E & Hp).
    rewrite E, startswith_cons in H. apply andb_true_iff in H as [H _].
    apply ascii_eqb_eq in H. subst p. apply closing_not_space in Hp. congruence.
  - rewrite startswith_cons in *. apply andb_true_iff in H as [H1 H2].
    rewrite H1. cbn [andb]. now apply IH.
Qed.

Lemma sub_before_contains (s : str) (w : str) :
  w <> [] ->
  Forall (fun x => isspace x = true) w ->
  contains w (sub_before s) = true -> contains w s = true.
Proof.
  intros Hne Hw. induction s as [|c t IH]; intros H.
  - destruct w; [contradiction | discriminate].
  - rewrite contains_cons. apply orb_true_iff.
    cbn [sub_before] in H.
    destruct (isspace c && before_closing t) eqn:D.
    + right. now apply IH.
    + rewrite contains_cons in H. apply orb_true_iff in H as [H|H].
      * left. apply (sub_before_startswith (c :: t) w Hw).
        cbn [sub_before]. now rewrite D.
      * right. now apply IH.
Qed.

(** *** White space after an opening character *)

Lemma sub_after_startswith (s : str) :
  forall w,
    Forall (fun x => isspace x = true) w ->
    startswith (sub_after false s) w = true -> startswith s w = true.
Proof.
  induction s as [|c t IH]; intros w Hw H; [exact H|].
  destruct w as [|x w]; [reflexivity|].
  inversion Hw as [|? ? Hx Hw']; subst.
  cbn [sub_after andb] in H. rewrite startswith_cons in *.
  apply andb_true_iff in H as [H1 H2]. rewrite H1. cbn [andb].
  apply ascii_eqb_eq in H1. subst c.
  destruct (opening x) eqn:Eo.
  - apply opening_not_space in Eo. congruence.
  - now apply IH.
Qed.

Lemma sub_after_contains (s : str) (w : str) :
  w <> [] ->
  Forall (fun x => isspace x = true) w ->
  forall drop, contains w (sub_after drop s) = true -> contains w s = true.
Proof.
  intros Hne Hw. induction s as [|c t IH]; intros drop H.
  - destruct w; [contradiction | discriminate].
  - rewrite contains_cons. apply orb_true_iff.
    cbn [sub_after] in H.
    destruct (drop && isspace c) eqn:D.
    + right. now apply (IH true).
    + rewrite contains_cons in H. apply orb_true_iff in H as [H|H].
      * left. destruct w as [|x w]; [contradiction|].
        inversion Hw as [|? ? Hx Hw']; subst.
        rewrite startswith_cons in *.
        apply andb_true_iff in H as [H1 H2]. rewrite H1. cbn [andb].
        apply ascii_eqb_eq in H1. subst c.
        destruct (opening x) eqn:Eo.
        -- apply opening_not_space in Eo. congruence.
        -- now apply sub_after_startswith.
      * right. now apply (IH (opening c)).
Qed.

End CleanFacts.

Lemma contains_strip (w s : str) :
  contains w (strip s) = true -> contains w s = true.
Proof.
  intros H. apply contains_segment. apply contains_segment in H.
  eapply segment_trans; [exact H | apply strip_segment].
Qed.

(** X7: the text [clean_text] returns has no white space at either end (stripping
    it again changes nothing), no two spaces in a row and no three newlines
    in a row. *)
Theorem clean_text_normalized (text : str) :
  strip (CleanText.clean_text text) = CleanText.clean_text text
  /\ contains (lit "  ") (CleanText.clean_text text) = false
  /\ contains (nl ++ nl ++ nl) (CleanText.clean_text text) = false.
Proof.
  unfold CleanText.clean_text. split; [apply strip_idempotent|]. split.
  - match goal with |- ?b = false => destruct b eqn:E end; [|reflexivity].
    apply contains_strip in E.
    apply CleanFacts.sub_after_contains in E;
      [| discriminate | repeat constructor].
    apply CleanFacts.sub_before_contains in E;
      [| discriminate | repeat constructor].
    now rewrite CleanFacts.sub_spaces_no_two in E.
  - match goal with |- ?b = false => destruct b eqn:E end; [|reflexivity].
    apply contains_strip in E.
    apply CleanFacts.sub_after_contains in E;
      [| discriminate | repeat constructor].
    apply CleanFacts.sub_before_contains in E;
      [| discriminate | repeat constructor].
    apply CleanFacts.sub_spaces_contains in E;
      [| discriminate | repeat constructor].
    now rewrite CleanFacts.sub_newlines_no_three in E.
Qed.

(* ================================================================== *)
(** * PDF files *)
(* ================================================================== *)

(** X2: a path with the extension .pdf (in any letter case): when the text can
    be extracted, [process_document] prints nothing and returns the chunks
    of the text for windows of 1000 characters with an overlap of 200, each
    of at most 1000 characters; when the extraction raises, it prints the
    error and returns the empty list. *)
Theorem process_document_pdf (env : Env) (file_path : str) :
  lower (snd (splitext file_path)) = lit ".pdf" ->
  match read_pdf_text env file_path with
  | Return text =>
      exists chunks,
        process_document env file_path = ([], Return chunks)
        /\ split_text text 1000 200 = Some chunks
        /\ Forall (fun c => len c <= 1000) chunks
  | Raise e =>
      process_document env file_path
      = ([lit "Error processing document: " ++ exn_msg e], Return [])
  end.
Proof.
  intros Hext. unfold process_document. rewrite Hext.
  change (str_eqb (lit ".pdf") (lit ".pdf")) with true. cbv iota.
  unfold process_pdf.
  destruct (read_pdf_text env file_path) as [text|e]; [|reflexivity].
  cbn [bind].
  destruct (chunk_loop_enough_fuel (length text) text 1000 200 0 [])
    as (chunks & Hc); [unfold len; lia|].
  exists chunks. unfold split_text. rewrite Hc. split; [reflexivity|].
  split; [reflexivity|].
  eapply chunk_loop_bounded; [| | constructor | exact Hc]; lia.
Qed.

Lemma process_document_pdf_witness :
  exists chunks,
    process_document MoreSamples.revenue_files (lit "report.PDF") = ([], Return chunks)
    /\ split_text (lit "Revenue grew. Costs fell.") 1000 200 = Some chunks
    /\ Forall (fun c => len c <= 1000) chunks.
Proof.
  apply (process_document_pdf MoreSamples.revenue_files (lit "report.PDF")).
  vm_compute. reflexivity.
Defined.

(* ================================================================== *)
(** * Errors that leave [retrieve_context] *)
(* ================================================================== *)

Lemma getitem_missing (documents : list str) (indices : list Z) :
  Forall (fun i => 0 <= i) indices ->
  Exists (fun i => len documents <= i) indices ->
  traverse (getitem documents) indices
  = Raise (IndexError (lit "list index out of range")).
Proof.
  intros Hpos Hex. induction indices as [|i indices IH]; [inversion Hex|].
  inversion Hpos as [|? ? Hi Hpos']; subst.
  cbn [traverse]. unfold getitem at 1.
  assert (E : (i <? 0) = false) by lia. rewrite E.
  destruct (i <? len documents) eqn:El.
  - assert (E2 : (0 <=? i) = true) by lia. rewrite E2. cbn [andb bind].
    rewrite IH; [reflexivity | assumption |].
    inversion Hex as [? ? H|? ? H]; subst; [lia | assumption].
  - rewrite andb_false_r. reflexivity.
Qed.

(** X16: [retrieve_context] has no [try]: when a pair it keeps points at an
    embedding row that has no document (more rows than documents), the
    lookup [documents[i]] raises IndexError and the error leaves the
    function. *)
Theorem retrieve_context_missing_document (embed_query : str -> vec) (query : str)
    (documents : list str) (rows : list vec) (top_k : Z) (threshold : float)
    (sims top : list scored) :
  documents <> [] ->
  similarities (embed_query query) rows = Return sims ->
  top_similarities (embed_query query) rows top_k threshold = Return top ->
  Exists (fun p => len documents <= fst p) top ->
  retrieve_context embed_query query documents (Some rows) top_k threshold
  = Raise (IndexError (lit "list index out of range")).
Proof.
  intros Hne Hs Ht Hex. destruct documents as [|d documents]; [contradiction|].
  unfold retrieve_context. rewrite Ht. cbn [bind].
  pose proof (top_similarities_rows _ _ _ _ _ _ Hs Ht) as Hrows.
  rewrite getitem_missing; [reflexivity | |].
  - apply Forall_forall. intros i Hi. apply in_map_iff in Hi as (p & <- & Hp).
    rewrite Forall_forall in Hrows. apply Hrows in Hp. lia.
  - apply Exists_exists in Hex as (p & Hp & Hlen).
    apply Exists_exists. exists (fst p). split; [now apply in_map | assumption].
Qed.

Lemma retrieve_context_missing_document_witness :
  retrieve_context (Samples.embed_const Samples.unit_x) (lit "revenue")
    [lit "one"; lit "two"] (Some Samples.four_rows) 3 0.25
  = Raise (IndexError (lit "list index out of range")).
Proof.
  apply (retrieve_context_missing_document (Samples.embed_const Samples.unit_x)
           (lit "revenue") [lit "one"; lit "two"] Samples.four_rows 3 0.25%float
           Samples.four_scores
           [(0, 1%float); (3, 1%float); (2, 0x1.6a09e667f3bccp-1%float)]).
  - discriminate.
  - vm_compute. reflexivity.
  - vm_compute. reflexivity.
  - apply Exists_cons_tl, Exists_cons_hd. vm_compute. discriminate.
Defined.

Lemma similarities_shape_error (q : vec) (rows : list vec) :
  all_zero q = false ->
  Exists (fun row => all_zero row = false /\ length row <> length q) rows ->
  similarities q rows = Raise shape_error.
Proof.
  intros Hq Hex. unfold similarities, enumerate. generalize 0 as i.
  induction rows as [|row rows IH]; intros i; [inversion Hex|].
  cbn [enumerate_from traverse fst snd].
  destruct (cosine_similarity q row) as [s|e] eqn:Ec; cbn [bind].
  - rewrite IH; [reflexivity|].
    inversion Hex as [? ? [Hz Hlen]|? ? H]; subst; [|assumption].
    exfalso. unfold cosine_similarity in Ec. rewrite Hq, Hz in Ec. cbn [orb] in Ec.
    assert (E : (length q =? length row)%nat = false)
      by (apply Nat.eqb_neq; congruence).
    rewrite E in Ec. discriminate.
  - unfold cosine_similarity in Ec.
    destruct (all_zero q || all_zero row); [discriminate|].
    destruct (negb (length q =? length row)%nat).
    + now injection Ec as <-.
    + destruct (_ || _); discriminate.
Qed.

(** X17: a dimension mismatch is not absorbed: when the query vector is not
    all-zero and some embedding row that is not all-zero has another
    dimension, the shape error of [np.dot] leaves [retrieve_context] (for a
    non-empty document list), whatever [top_k] and the threshold are. *)
Theorem retrieve_context_shape_error (embed_query : str -> vec) (query : str)
    (documents : list str) (rows : list vec) (top_k : Z) (threshold : float) :
  documents <> [] ->
  all_zero (embed_query query) = false ->
  Exists (fun row => all_zero row = false
                     /\ length row <> length (embed_query query)) rows ->
  retrieve_context embed_query query documents (Some rows) top_k threshold
  = Raise shape_error.
Proof.
  intros Hne Hq Hex. destruct documents as [|d documents]; [contradiction|].
  unfold retrieve_context, top_similarities.
  rewrite (similarities_shape_error _ _ Hq Hex). reflexivity.
Qed.

Lemma retrieve_context_shape_error_witness :
  retrieve_context (Samples.embed_const Samples.ones) (lit "revenue")
    Samples.four_docs (Some Samples.four_rows) 3 0.25
  = Raise shape_error.
Proof.
  apply (retrieve_context_shape_error (Samples.embed_const Samples.ones)
           (lit "revenue") Samples.four_docs Samples.four_rows 3 0.25%float).
  - discriminate.
  - reflexivity.
  - apply Exists_cons_hd. split; [reflexivity | simpl; discriminate].
Defined.
